(** * PDF-to-image conversion service: job tracker and conversion pipeline

    A shallow embedding of [index.js]: the in-memory job tracker
    ([conversionJobs], [jobCounter]), the HTTP handlers that read and write
    it, the image optimizer and the conversion pipeline
    [convertPDFToImages].

    JavaScript runs every handler and every stretch of an [async] function
    between two [await]s to completion before anything else runs.  The
    pipeline is therefore modelled as a machine whose program counter names
    the pending [await]: one step delivers the awaited result and runs the
    synchronous code up to the next [await].  States between two steps are
    the only ones another handler (a status poll) can observe.

    The PDF engine, the canvas and the encoder are external: their answers
    come from an environment record handed to each step.  The file system is
    a finite map from paths to nodes. *)

From Stdlib Require Import ZArith NArith QArith Ascii String DecimalString.
From Stdlib Require DecimalNat DecimalN.
From stdpp Require Import gmap strings list fin_maps sorting.

(** ** Results of calls that may throw *)

Inductive result (A : Type) : Type :=
| Ok (a : A)
| Throw (message : string).
Arguments Ok {A} a.
Arguments Throw {A} message.

Definition bind {A B} (r : result A) (k : A → result B) : result B :=
  match r with
  | Ok a => k a
  | Throw m => Throw m
  end.

(** [try { body } catch (error) { handler(error.message) }] *)
Definition try_catch {A} (body : result A) (handler : string → result A) : result A :=
  match body with
  | Ok a => Ok a
  | Throw m => handler m
  end.

Definition bytes := list Byte.byte.

(** ** Paths and the file system *)

(** A path is the list of its components below [__dirname];
    [path.join(p, name)] adds one component.  Directory identifiers and file
    names are taken as single components. *)
Abbreviation path := (list string) (only parsing).

Definition path_join (p : path) (name : string) : path := p ++ [name].

Definition path_str (p : path) : string := String.concat "/" p.

Definition parent (p : path) : path := removelast p.

Inductive node : Type :=
| File (data : bytes)
| Dir.

(** [locked] holds the paths whose removal the operating system refuses
    (EPERM, EBUSY, EACCES). *)
Record filesys : Type := {
  nodes : gmap path node;
  locked : gset path;
}.

Definition set_nodes (fs : filesys) (m : gmap path node) : filesys :=
  {| nodes := m; locked := locked fs |}.

Definition is_dir (fs : filesys) (p : path) : bool :=
  match p, nodes fs !! p with
  | [], _ => true
  | _, Some Dir => true
  | _, _ => false
  end.

(** [child_name dir p] is [Some n] exactly when [p] is [dir/n]. *)
Fixpoint child_name (dir p : path) : option string :=
  match dir, p with
  | [], [n] => Some n
  | d :: dir', c :: p' => if decide (d = c) then child_name dir' p' else None
  | _, _ => None
  end.

Definition children (fs : filesys) (dir : path) : list string :=
  omap (λ kv, child_name dir kv.1) (map_to_list (nodes fs)).

(** [fs.access(p)] *)
Definition fs_access (fs : filesys) (p : path) : result unit :=
  match nodes fs !! p with
  | Some _ => Ok tt
  | None => Throw "ENOENT: no such file or directory"
  end.

(** [fs.readdir(p)] *)
Definition fs_readdir (fs : filesys) (p : path) : result (list string) :=
  match nodes fs !! p with
  | Some Dir => Ok (children fs p)
  | Some (File _) => Throw "ENOTDIR: not a directory"
  | None => Throw "ENOENT: no such file or directory"
  end.

(** [fs.unlink(p)] *)
Definition fs_unlink (fs : filesys) (p : path) : result filesys :=
  match nodes fs !! p with
  | Some (File _) =>
      if decide (p ∈ locked fs) then Throw "EPERM: operation not permitted"
      else Ok (set_nodes fs (delete p (nodes fs)))
  | Some Dir => Throw "EISDIR: illegal operation on a directory"
  | None => Throw "ENOENT: no such file or directory"
  end.

(** [fs.readFile(p)] *)
Definition fs_readFile (fs : filesys) (p : path) : result bytes :=
  match nodes fs !! p with
  | Some (File data) => Ok data
  | Some Dir => Throw "EISDIR: illegal operation on a directory"
  | None => Throw "ENOENT: no such file or directory"
  end.

(** [fs.mkdir(p, { recursive: true })]: every missing directory on the way
    is created; a file on the way makes the call throw. *)
Fixpoint mkdir_from (pre rest : path) (m : gmap path node) : result (gmap path node) :=
  match rest with
  | [] => Ok m
  | c :: rest' =>
      let p := pre ++ [c] in
      match m !! p with
      | Some (File _) => Throw "EEXIST: file already exists"
      | Some Dir => mkdir_from p rest' m
      | None => mkdir_from p rest' (<[p := Dir]> m)
      end
  end.

Definition fs_mkdir (fs : filesys) (p : path) : result filesys :=
  bind (mkdir_from [] p (nodes fs)) (λ m, Ok (set_nodes fs m)).

(** [fs.writeFile(p, data)] *)
Definition fs_writeFile (fs : filesys) (p : path) (data : bytes) : result filesys :=
  match p, nodes fs !! p with
  | [], _ => Throw "EISDIR: illegal operation on a directory"
  | _, Some Dir => Throw "EISDIR: illegal operation on a directory"
  | _, _ =>
      if is_dir fs (parent p) then Ok (set_nodes fs (<[p := File data]> (nodes fs)))
      else Throw "ENOENT: no such file or directory"
  end.

(** Every entry sits in a directory. *)
Definition fs_wf (fs : filesys) : Prop :=
  ∀ p n, is_Some (nodes fs !! (p ++ [n])) → is_dir fs p = true.

(** ** JavaScript values the service computes with *)

(** Timestamps ([Date.now()], [new Date()]) in milliseconds. *)
Definition Time := N.

Definition dec (n : nat) : string := NilZero.string_of_uint (Nat.to_uint n).
Definition decN (n : N) : string := NilZero.string_of_uint (N.to_uint n).

Definition lower_ascii (c : ascii) : ascii :=
  let n := nat_of_ascii c in
  if (65 <=? n)%nat && (n <=? 90)%nat then ascii_of_nat (n + 32) else c.

Fixpoint toLowerCase (s : string) : string :=
  match s with
  | EmptyString => EmptyString
  | String c s' => String (lower_ascii c) (toLowerCase s')
  end.

(** The quotient [n / d] of two buffer sizes: a JavaScript division never
    throws; a zero divisor gives [NaN] or [Infinity].  A finite quotient is
    kept as the pair it was computed from. *)
Inductive jsquot : Type :=
| NaN
| Infinity
| Quot (n d : nat).

Definition js_div (n d : nat) : jsquot :=
  match d, n with
  | O, O => NaN
  | O, S _ => Infinity
  | S _, _ => Quot n d
  end.

(** The string [q.toFixed(2)]. *)
Inductive fixed2 : Type :=
| FixedNaN                (* "NaN" *)
| FixedInfinity           (* "Infinity" *)
| Fixed (n d : nat).      (* two decimals of the finite quotient n / d *)

Definition toFixed2 (q : jsquot) : fixed2 :=
  match q with
  | NaN => FixedNaN
  | Infinity => FixedInfinity
  | Quot n d => Fixed n d
  end.

Definition is_numeric (f : fixed2) : bool :=
  match f with
  | Fixed _ _ => true
  | _ => false
  end.

(** The [progress] field: the literals [0] and [100], or
    [Math.floor((processed / total) * 100)], kept as the pair it was
    computed from. *)
Inductive Progress : Type :=
| Percent (n : nat)
| FloorPercent (processed total : nat).

(** [req.body.directoryId || Date.now()]: a string from the form, or a
    number. *)
Inductive DirId : Type :=
| IdStr (s : string)
| IdNum (n : N).

Definition DirId_toString (d : DirId) : string :=
  match d with
  | IdStr s => s
  | IdNum n => decN n
  end.

(** ** Configuration *)

Module config.
Definition inputDir : path := ["pdfs"].
Definition outputDir : path := ["images"].
Definition imageFormat : string := "jpeg".
Definition scale : Q := 3 # 2.

Module jpeg.
Definition quality : nat := 75.
Definition progressive : bool := true.
Definition optimizeScans : bool := true.
Definition chromaSubsampling : string := "4:2:0".
Definition trellisQuantisation : bool := true.
Definition overshootDeringing : bool := true.
Definition optimizeCoding : bool := true.
End jpeg.

Module png.
Definition compressionLevel : nat := 7.
Definition adaptiveFiltering : bool := true.
Definition palette : bool := true.
Definition quality : nat := 75.
End png.

Module resize.
Definition enabled : bool := true.
Definition maxWidth : nat := 1200.
Definition maxHeight : nat := 1600.
Definition fit : string := "inside".
End resize.

Module sharpening.
Definition enabled : bool := true.
Definition sigma : Q := 1 # 2.
Definition strength : Q := 3 # 10.
End sharpening.
End config.

(** ** The image optimizer *)

(** The operations queued on a [sharp] instance, in call order. *)
Inductive SharpOp : Type :=
| OpResize (width height : nat) (fit : string) (withoutEnlargement : bool)
| OpSharpen (sigma strength : Q)
| OpJpeg (quality : nat) (progressive : bool) (chromaSubsampling : string)
         (trellisQuantisation overshootDeringing optimizeCoding : bool)
| OpPng (compressionLevel : nat) (adaptiveFiltering palette : bool) (quality : nat)
| OpWebp (quality : nat) (lossless nearLossless smartSubsample : bool) (effort : nat).

Record SharpInstance : Type := {
  sharp_input : bytes;
  sharp_ops : list SharpOp;
}.

Definition sharp (imageBuffer : bytes) : SharpInstance :=
  {| sharp_input := imageBuffer; sharp_ops := [] |}.

Definition sharp_then (s : SharpInstance) (op : SharpOp) : SharpInstance :=
  {| sharp_input := sharp_input s; sharp_ops := sharp_ops s ++ [op] |}.

(** The instance [optimizeImage] builds before it awaits [toBuffer()]. *)
Definition sharpInstance_for (imageBuffer : bytes) (format : string) : SharpInstance :=
  let s0 := sharp imageBuffer in
  let s1 :=
    if config.resize.enabled
    then sharp_then s0 (OpResize config.resize.maxWidth config.resize.maxHeight
                                 config.resize.fit true)
    else s0 in
  let s2 :=
    if config.sharpening.enabled
    then sharp_then s1 (OpSharpen config.sharpening.sigma config.sharpening.strength)
    else s1 in
  if decide (format = "jpeg") then
    sharp_then s2 (OpJpeg config.jpeg.quality config.jpeg.progressive
                          config.jpeg.chromaSubsampling config.jpeg.trellisQuantisation
                          config.jpeg.overshootDeringing config.jpeg.optimizeCoding)
  else if decide (format = "png") then
    sharp_then s2 (OpPng config.png.compressionLevel config.png.adaptiveFiltering
                         config.png.palette config.png.quality)
  else if decide (format = "webp") then
    sharp_then s2 (OpWebp config.jpeg.quality false false true 5)
  else s2.

(** [optimizeImage(imageBuffer, pageNum, totalPages, format)], given the
    encoder's answer [toBuffer] for the instance it is asked to encode (a
    throw of [sharp(...)] or of one of the option calls is a throw of
    [toBuffer]).  The compression ratio computed after the encoding is only
    logged. *)
Definition optimizeImage (toBuffer : SharpInstance → result bytes)
    (imageBuffer : bytes) (pageNum totalPages : nat) (format : string) : result bytes :=
  try_catch
    (bind (toBuffer (sharpInstance_for imageBuffer format)) (λ optimizedImageBuffer,
       let compressionRatio :=
         toFixed2 (js_div (length imageBuffer) (length optimizedImageBuffer)) in
       Ok optimizedImageBuffer))
    (λ error, Ok imageBuffer).

(** ** Job records and the job tracker *)

Inductive Status : Type := pending | processing | completed | failed.

Module Job.
  (** The object literal of the upload handler has the first eight fields;
      the pipeline adds the others, which are [undefined] ([None]) until
      then. *)
Record t : Type := mk {
    id : Z;
    directoryId : DirId;
    pdfPath : path;
    status : Status;
    progress : Progress;
    startTime : Time;
    processedPages : nat;
    totalPages : nat;
    currentPage : option nat;
    error : option string;
    errors : option (list string);
    outputPath : option path;
    endTime : option Time;
    compressionRatio : option fixed2;
  }.

Definition set_status (v : Status) (j : t) : t :=
    mk (id j) (directoryId j) (pdfPath j) v (progress j) (startTime j)
       (processedPages j) (totalPages j) (currentPage j) (error j) (errors j)
       (outputPath j) (endTime j) (compressionRatio j).
Definition set_progress (v : Progress) (j : t) : t :=
    mk (id j) (directoryId j) (pdfPath j) (status j) v (startTime j)
       (processedPages j) (totalPages j) (currentPage j) (error j) (errors j)
       (outputPath j) (endTime j) (compressionRatio j).
Definition set_processedPages (v : nat) (j : t) : t :=
    mk (id j) (directoryId j) (pdfPath j) (status j) (progress j) (startTime j)
       v (totalPages j) (currentPage j) (error j) (errors j)
       (outputPath j) (endTime j) (compressionRatio j).
Definition set_totalPages (v : nat) (j : t) : t :=
    mk (id j) (directoryId j) (pdfPath j) (status j) (progress j) (startTime j)
       (processedPages j) v (currentPage j) (error j) (errors j)
       (outputPath j) (endTime j) (compressionRatio j).
Definition set_currentPage (v : nat) (j : t) : t :=
    mk (id j) (directoryId j) (pdfPath j) (status j) (progress j) (startTime j)
       (processedPages j) (totalPages j) (Some v) (error j) (errors j)
       (outputPath j) (endTime j) (compressionRatio j).
Definition set_error (v : string) (j : t) : t :=
    mk (id j) (directoryId j) (pdfPath j) (status j) (progress j) (startTime j)
       (processedPages j) (totalPages j) (currentPage j) (Some v) (errors j)
       (outputPath j) (endTime j) (compressionRatio j).
Definition set_errors (v : list string) (j : t) : t :=
    mk (id j) (directoryId j) (pdfPath j) (status j) (progress j) (startTime j)
       (processedPages j) (totalPages j) (currentPage j) (error j) (Some v)
       (outputPath j) (endTime j) (compressionRatio j).
Definition set_outputPath (v : path) (j : t) : t :=
    mk (id j) (directoryId j) (pdfPath j) (status j) (progress j) (startTime j)
       (processedPages j) (totalPages j) (currentPage j) (error j) (errors j)
       (Some v) (endTime j) (compressionRatio j).
Definition set_endTime (v : Time) (j : t) : t :=
    mk (id j) (directoryId j) (pdfPath j) (status j) (progress j) (startTime j)
       (processedPages j) (totalPages j) (currentPage j) (error j) (errors j)
       (outputPath j) (Some v) (compressionRatio j).
Definition set_compressionRatio (v : fixed2) (j : t) : t :=
    mk (id j) (directoryId j) (pdfPath j) (status j) (progress j) (startTime j)
       (processedPages j) (totalPages j) (currentPage j) (error j) (errors j)
       (outputPath j) (endTime j) (Some v).
End Job.

(** ** The conversion pipeline [convertPDFToImages] *)

(** What the external libraries answer during one step. *)
Record Env : Type := {
  now : Time;                               (* new Date() *)
  getDocument : bytes → result nat;         (* getDocument({ data }).promise: numPages *)
  getPage : nat → result unit;              (* getPage, getViewport, createCanvas, fillRect *)
  render : nat → result unit;               (* page.render(renderContext).promise *)
  canvas_toBuffer : nat → string → result bytes;  (* canvas.toBuffer(mime) of a page *)
  toBuffer : SharpInstance → result bytes;  (* sharpInstance.toBuffer() *)
  page_cleanup : nat → result unit;         (* page.cleanup() *)
}.

(** The pending [await] of a pipeline run. *)
Inductive PC : Type :=
| Scheduled                                   (* queued by setImmediate *)
| AwaitCleanAccess                            (* cleanDirectoryImages: fs.access(dirPath) *)
| AwaitCleanReaddir                           (* cleanDirectoryImages: fs.readdir(dirPath) *)
| AwaitCleanUnlink (file : string) (rest : list string)  (* fs.unlink of one entry *)
| AwaitAccess                                 (* fs.access(pdfPath) *)
| AwaitReadFile                               (* fs.readFile(pdfPath) *)
| AwaitGetDocument (data : bytes)             (* loadingTask.promise *)
| AwaitMkdir                                  (* fs.mkdir(pdfOutputDir) *)
| AwaitGetPage (pageNum : nat)                (* pdfDocument.getPage(pageNum) *)
| AwaitRender (pageNum : nat)                 (* page.render(...).promise *)
| AwaitOptimize (pageNum : nat) (rawImageData : bytes)      (* optimizeImage: toBuffer() *)
| AwaitWriteFile (pageNum : nat) (optimizedImageData : bytes)  (* fs.writeFile *)
| Settled (outcome : result path).            (* returned or threw *)

Module Task.
(** The arguments and the local variables of one call. *)
Record t : Type := mk {
  pdfPath : path;
  directoryId : DirId;
  jobId : Z;
  pc : PC;
  totalPages : nat;
  totalOriginalSize : nat;
  totalCompressedSize : nat;
}.

Definition set_pc (v : PC) (k : t) : t :=
  mk (pdfPath k) (directoryId k) (jobId k) v (totalPages k)
     (totalOriginalSize k) (totalCompressedSize k).
Definition set_totalPages (v : nat) (k : t) : t :=
  mk (pdfPath k) (directoryId k) (jobId k) (pc k) v
     (totalOriginalSize k) (totalCompressedSize k).
Definition set_totalOriginalSize (v : nat) (k : t) : t :=
  mk (pdfPath k) (directoryId k) (jobId k) (pc k) (totalPages k)
     v (totalCompressedSize k).
Definition set_totalCompressedSize (v : nat) (k : t) : t :=
  mk (pdfPath k) (directoryId k) (jobId k) (pc k) (totalPages k)
     (totalOriginalSize k) v.

(** [convertPDFToImages(pdfPath, directoryId, jobId)] before it starts. *)
Definition start (pdfPath : path) (directoryId : DirId) (jobId : Z) : t :=
  mk pdfPath directoryId jobId Scheduled 0 0 0.
End Task.

(** The calls a run awaits, named by where they stand in the source. *)
Inductive event : Type :=
| EvCleanAccess (p : path)     (* cleanDirectoryImages: fs.access(dirPath) *)
| EvCleanReaddir (p : path)    (* cleanDirectoryImages: fs.readdir(dirPath) *)
| EvCleanUnlink (p : path)     (* cleanDirectoryImages: fs.unlink(...) *)
| EvAccess (p : path)          (* fs.access(pdfPath) *)
| EvReadFile (p : path)
| EvGetDocument
| EvMkdir (p : path)
| EvGetPage (pageNum : nat)
| EvRender (pageNum : nat)
| EvOptimize (pageNum : nat)
| EvWriteFile (pageNum : nat) (p : path) (data : bytes).

(** One pipeline run together with what it reads and writes. *)
Record Machine : Type := {
  m_jobs : gmap Z Job.t;
  m_fs : filesys;
  m_task : Task.t;
  m_trace : list event;
}.

Definition with_jobs (f : gmap Z Job.t → gmap Z Job.t) (m : Machine) : Machine :=
  {| m_jobs := f (m_jobs m); m_fs := m_fs m; m_task := m_task m; m_trace := m_trace m |}.
Definition with_job (f : Job.t → Job.t) (m : Machine) : Machine :=
  with_jobs (alter f (Task.jobId (m_task m))) m.
Definition with_fs (fs : filesys) (m : Machine) : Machine :=
  {| m_jobs := m_jobs m; m_fs := fs; m_task := m_task m; m_trace := m_trace m |}.
Definition with_task (f : Task.t → Task.t) (m : Machine) : Machine :=
  {| m_jobs := m_jobs m; m_fs := m_fs m; m_task := f (m_task m); m_trace := m_trace m |}.
Definition goto (pc : PC) (m : Machine) : Machine := with_task (Task.set_pc pc) m.
Definition emit (ev : event) (m : Machine) : Machine :=
  {| m_jobs := m_jobs m; m_fs := m_fs m; m_task := m_task m; m_trace := m_trace m ++ [ev] |}.

Definition format : string := toLowerCase config.imageFormat.
Definition mime : string :=
  "image/" +:+ (if decide (format = "webp") then "png" else format).

Definition path_resolve (p : path) : path := p.

(** [path.join(config.outputDir, directoryId.toString())]: [dirPath] of
    [cleanDirectoryImages], [pdfOutputDir] of the pipeline. *)
Definition pdfOutputDir (directoryId : DirId) : path :=
  path_join config.outputDir (DirId_toString directoryId).

Definition imagePath (directoryId : DirId) (pageNum : nat) : path :=
  path_join (pdfOutputDir directoryId) (dec pageNum +:+ "." +:+ format).

Definition not_found_message (pdfPath : path) : string :=
  "PDF file not found at path: " +:+ path_str pdfPath.

(** The outer [catch]: the job, if the tracker has it, is marked failed;
    the error is thrown again. *)
Definition outer_catch (e : Env) (message : string) (m : Machine) : Machine :=
  goto (Settled (Throw message))
    (with_job (λ job, Job.set_endTime (now e)
                        (Job.set_error message (Job.set_status failed job))) m).

(** The inner [catch (renderError)]. *)
Definition page_error (pageNum : nat) (message : string) (job : Job.t) : Job.t :=
  Job.set_errors
    (default [] (Job.errors job) ++ ["Error on page " +:+ dec pageNum +:+ ": " +:+ message])
    job.

(** The code after the page loop. *)
Definition complete (e : Env) (m : Machine) : Machine :=
  let k := m_task m in
  let overallRatio :=
    toFixed2 (js_div (Task.totalOriginalSize k) (Task.totalCompressedSize k)) in
  let absoluteOutputPath := path_resolve (pdfOutputDir (Task.directoryId k)) in
  goto (Settled (Ok absoluteOutputPath))
    (with_job (λ job,
       Job.set_compressionRatio overallRatio
         (Job.set_progress (Percent 100)
            (Job.set_endTime (now e)
               (Job.set_outputPath absoluteOutputPath
                  (Job.set_status completed job))))) m).

(** The loop test [pageNum <= totalPages] and what follows it. *)
Definition loop_head (e : Env) (pageNum : nat) (m : Machine) : Machine :=
  if (pageNum <=? Task.totalPages (m_task m))%nat
  then goto (AwaitGetPage pageNum) (with_job (Job.set_currentPage pageNum) m)
  else complete e m.

(** [continue] out of the inner [catch]. *)
Definition skip_page (e : Env) (pageNum : nat) (message : string) (m : Machine) : Machine :=
  loop_head e (S pageNum) (with_job (page_error pageNum message) m).

(** The call [cleanDirectoryImages] has returned. *)
Definition cleaned (m : Machine) : Machine := goto AwaitAccess m.

Definition unlink_next (files : list string) (m : Machine) : Machine :=
  match files with
  | [] => cleaned m
  | file :: rest => goto (AwaitCleanUnlink file rest) m
  end.

(** One step: the awaited call of the program counter is made (its effect
    on the disk happens now, its result comes from the disk or from [e]),
    it is appended to the trace, and the synchronous code that follows runs
    up to the next [await].  After the [await] of [cleanDirectoryImages] and
    of [optimizeImage] the caller goes on in the same step: nothing but
    other promise reactions can run in between, and they do not read the
    job record. *)
Definition step (e : Env) (m : Machine) : Machine :=
  let k := m_task m in
  let dir := pdfOutputDir (Task.directoryId k) in
  match Task.pc k with
  | Scheduled =>
      match m_jobs m !! Task.jobId k with
      | None =>
          outer_catch e "Cannot set properties of undefined (setting 'status')" m
      | Some _ => goto AwaitCleanAccess (with_job (Job.set_status processing) m)
      end
  | AwaitCleanAccess =>
      let m := emit (EvCleanAccess dir) m in
      match fs_access (m_fs m) dir with
      | Throw _ => cleaned m
      | Ok _ => goto AwaitCleanReaddir m
      end
  | AwaitCleanReaddir =>
      let m := emit (EvCleanReaddir dir) m in
      match fs_readdir (m_fs m) dir with
      | Throw message => outer_catch e message m
      | Ok files => unlink_next files m
      end
  | AwaitCleanUnlink file rest =>
      let m := emit (EvCleanUnlink (path_join dir file)) m in
      match fs_unlink (m_fs m) (path_join dir file) with
      | Throw message => outer_catch e message m
      | Ok fs' => unlink_next rest (with_fs fs' m)
      end
  | AwaitAccess =>
      let m := emit (EvAccess (Task.pdfPath k)) m in
      match fs_access (m_fs m) (Task.pdfPath k) with
      | Throw _ =>
          let message := not_found_message (Task.pdfPath k) in
          outer_catch e message
            (with_job (λ job, Job.set_error message (Job.set_status failed job)) m)
      | Ok _ => goto AwaitReadFile m
      end
  | AwaitReadFile =>
      let m := emit (EvReadFile (Task.pdfPath k)) m in
      match fs_readFile (m_fs m) (Task.pdfPath k) with
      | Throw message => outer_catch e message m
      | Ok data => goto (AwaitGetDocument data) m
      end
  | AwaitGetDocument data =>
      let m := emit EvGetDocument m in
      match getDocument e data with
      | Throw message => outer_catch e message m
      | Ok numPages =>
          goto AwaitMkdir
            (with_job (λ job, Job.set_processedPages 0 (Job.set_totalPages numPages job))
               (with_task (Task.set_totalPages numPages) m))
      end
  | AwaitMkdir =>
      let m := emit (EvMkdir dir) m in
      match fs_mkdir (m_fs m) dir with
      | Throw message => outer_catch e message m
      | Ok fs' =>
          loop_head e 1
            (with_task (λ k, Task.set_totalCompressedSize 0 (Task.set_totalOriginalSize 0 k))
               (with_fs fs' m))
      end
  | AwaitGetPage pageNum =>
      let m := emit (EvGetPage pageNum) m in
      match getPage e pageNum with
      | Throw message => outer_catch e message m
      | Ok _ => goto (AwaitRender pageNum) m
      end
  | AwaitRender pageNum =>
      let m := emit (EvRender pageNum) m in
      match bind (render e pageNum) (λ _, canvas_toBuffer e pageNum mime) with
      | Throw message => skip_page e pageNum message m
      | Ok rawImageData =>
          goto (AwaitOptimize pageNum rawImageData)
            (with_task (λ k, Task.set_totalOriginalSize
                               (Task.totalOriginalSize k + length rawImageData) k) m)
      end
  | AwaitOptimize pageNum rawImageData =>
      let m := emit (EvOptimize pageNum) m in
      match optimizeImage (toBuffer e) rawImageData pageNum (Task.totalPages k) format with
      | Throw message => skip_page e pageNum message m
      | Ok optimizedImageData =>
          goto (AwaitWriteFile pageNum optimizedImageData)
            (with_task (λ k, Task.set_totalCompressedSize
                               (Task.totalCompressedSize k + length optimizedImageData) k) m)
      end
  | AwaitWriteFile pageNum optimizedImageData =>
      let p := imagePath (Task.directoryId k) pageNum in
      let m := emit (EvWriteFile pageNum p optimizedImageData) m in
      match fs_writeFile (m_fs m) p optimizedImageData with
      | Throw message => skip_page e pageNum message m
      | Ok fs' =>
          let m :=
            with_job (λ job,
              let processed := S (Job.processedPages job) in
              Job.set_progress (FloorPercent processed (Task.totalPages k))
                (Job.set_processedPages processed job))
              (with_fs fs' m) in
          match page_cleanup e pageNum with
          | Throw message => skip_page e pageNum message m
          | Ok _ => loop_head e (S pageNum) m
          end
      end
  | Settled _ => m
  end.

(** [run e n m]: [n] steps with nothing else running in between, the
    libraries answering as [e] says. *)
Fixpoint run (e : Env) (n : nat) (m : Machine) : Machine :=
  match n with
  | O => m
  | S n' => run e n' (step e m)
  end.

(** ** The server: tracker, handlers and scheduled runs *)

(** A computation on the disk that may throw; the disk keeps what was done
    before the throw. *)
Definition FS (A : Type) : Type := filesys → result A * filesys.

Definition fs_ret {A} (a : A) : FS A := λ fs, (Ok a, fs).
Definition fs_bind {A B} (c : FS A) (k : A → FS B) : FS B :=
  λ fs, match c fs with
        | (Ok a, fs') => k a fs'
        | (Throw m, fs') => (Throw m, fs')
        end.
Definition fs_try {A} (c : FS A) (handler : string → FS A) : FS A :=
  λ fs, match c fs with
        | (Ok a, fs') => (Ok a, fs')
        | (Throw m, fs') => handler m fs'
        end.
Definition fs_read {A} (op : filesys → result A) : FS A := λ fs, (op fs, fs).
Definition fs_write (op : filesys → result filesys) : FS unit :=
  λ fs, match op fs with
        | Ok fs' => (Ok tt, fs')
        | Throw m => (Throw m, fs)
        end.

Notation "'let*' x := c 'in' k" := (fs_bind c (λ x, k))
  (at level 10, x name, c at level 100, k at level 200).

(** [for (const file of files) await fs.unlink(path.join(dir, file))] *)
Fixpoint unlink_each (dir : path) (files : list string) : FS unit :=
  match files with
  | [] => fs_ret tt
  | file :: rest =>
      let* _ := fs_write (λ fs, fs_unlink fs (path_join dir file)) in
      unlink_each dir rest
  end.

Definition ensureDirectoriesExist : FS unit :=
  fs_try
    (let* _ := fs_write (λ fs, fs_mkdir fs config.inputDir) in
     fs_write (λ fs, fs_mkdir fs config.outputDir))
    (λ error fs, (Throw error, fs)).

(** [cleanupDirectories()]: the [catch] logs the error and does not throw
    it again. *)
Definition cleanupDirectories : FS unit :=
  fs_try
    (let* pdfFiles := fs_read (λ fs, fs_readdir fs config.inputDir) in
     unlink_each config.inputDir pdfFiles)
    (λ error, fs_ret tt).

(** What a handler passes to [res.json]. *)
Inductive jsval : Type :=
| VUndefined
| VNum (n : Z)
| VStr (s : string)
| VDate (t : Time)
| VProgress (p : Progress)
| VFixed (f : fixed2)
| VArray (l : list string).

Record Response : Type := {
  code : nat;
  body : list (string * jsval);
}.

Definition Status_toString (s : Status) : string :=
  match s with
  | pending => "pending"
  | processing => "processing"
  | completed => "completed"
  | failed => "failed"
  end.

Definition DirId_val (d : DirId) : jsval :=
  match d with
  | IdStr s => VStr s
  | IdNum n => VNum (Z.of_N n)
  end.

Definition opt_val {A} (f : A → jsval) (o : option A) : jsval :=
  match o with
  | Some a => f a
  | None => VUndefined
  end.

(** The property read [job[key]]. *)
Definition Job_get (key : string) (job : Job.t) : jsval :=
  if decide (key = "id") then VNum (Job.id job)
  else if decide (key = "directoryId") then DirId_val (Job.directoryId job)
  else if decide (key = "pdfPath") then VStr (path_str (Job.pdfPath job))
  else if decide (key = "status") then VStr (Status_toString (Job.status job))
  else if decide (key = "progress") then VProgress (Job.progress job)
  else if decide (key = "startTime") then VDate (Job.startTime job)
  else if decide (key = "processedPages") then VNum (Z.of_nat (Job.processedPages job))
  else if decide (key = "totalPages") then VNum (Z.of_nat (Job.totalPages job))
  else if decide (key = "currentPage") then
    opt_val (λ n, VNum (Z.of_nat n)) (Job.currentPage job)
  else if decide (key = "error") then opt_val VStr (Job.error job)
  else if decide (key = "errors") then opt_val VArray (Job.errors job)
  else if decide (key = "outputPath") then
    opt_val (λ p, VStr (path_str p)) (Job.outputPath job)
  else if decide (key = "endTime") then opt_val VDate (Job.endTime job)
  else if decide (key = "compressionRatio") then opt_val VFixed (Job.compressionRatio job)
  else VUndefined.

(** [jobCounter] is a JavaScript number; [++jobCounter] is exact below
    2^53, a number of uploads no process lives to see, and is taken as
    exact. *)
Record State : Type := {
  conversionJobs : gmap Z Job.t;
  jobCounter : Z;
  fs : filesys;
  tasks : gmap Z Task.t;   (* the runs queued by setImmediate, by job id *)
}.

(** [app.get('/api/jobs/:jobId')]; [jobId] is [parseInt(req.params.jobId)],
    [None] for [NaN]. *)
Definition get_job (jobId : option Z) (s : State) : Response * State :=
  let job := jobId ≫= (λ i, conversionJobs s !! i) in
  match job with
  | None => ({| code := 404; body := [("error", VStr "Job not found")] |}, s)
  | Some job =>
      let jobResponse :=
        [ ("id", VNum (Job.id job));
          ("directoryId", DirId_val (Job.directoryId job));
          ("status", VStr (Status_toString (Job.status job)));
          ("progress", VProgress (Job.progress job));
          ("processedPages", VNum (Z.of_nat (Job.processedPages job)));
          ("totalPages", VNum (Z.of_nat (Job.totalPages job)));
          ("outputPath", opt_val (λ p, VStr (path_str p)) (Job.outputPath job));
          ("startTime", VDate (Job.startTime job));
          ("endTime", opt_val VDate (Job.endTime job));
          ("error", opt_val VStr (Job.error job));
          ("errors", opt_val VArray (Job.errors job));
          ("compressionRatio", opt_val VFixed (Job.compressionRatio job)) ] in
      ({| code := 200; body := jobResponse |}, s)
  end.

(** [app.post('/api/maintenance/cleanup')], with nothing else touching the
    disk while it runs. *)
Definition maintenance_cleanup (s : State) : Response * State :=
  let '(r, fs') := cleanupDirectories (fs s) in
  let s' := {| conversionJobs := conversionJobs s; jobCounter := jobCounter s;
               fs := fs'; tasks := tasks s |} in
  match r with
  | Ok _ =>
      ({| code := 200;
          body := [("message", VStr "All temporary directories cleaned successfully")] |}, s')
  | Throw message => ({| code := 500; body := [("error", VStr message)] |}, s')
  end.

(** The upload request after multer has stored the file: [req.file.path]
    if a file came, and the form field [directoryId]. *)
Record UploadReq : Type := {
  file_path : option path;
  body_directoryId : option string;
}.

(** [app.post('/api/upload')]; [dateNow] is [Date.now()], [newDate] is
    [new Date()].  From the test of [req.file] to [res.status(200)] the
    handler does not await: the record and its scheduled run appear
    together. *)
Definition upload (req : UploadReq) (dateNow newDate : Time) (s : State) : Response * State :=
  let '(r, fs') := ensureDirectoriesExist (fs s) in
  let s1 := {| conversionJobs := conversionJobs s; jobCounter := jobCounter s;
               fs := fs'; tasks := tasks s |} in
  match r with
  | Throw message => ({| code := 500; body := [("error", VStr message)] |}, s1)
  | Ok _ =>
      match file_path req with
      | None => ({| code := 400; body := [("error", VStr "No PDF file uploaded")] |}, s1)
      | Some pdfPath =>
          let directoryId :=
            match body_directoryId req with
            | Some (String c d) => IdStr (String c d)
            | _ => IdNum dateNow
            end in
          let jobId := (jobCounter s + 1)%Z in
          let job :=
            Job.mk jobId directoryId pdfPath pending (Percent 0) newDate 0 0
                   None None None None None None in
          ({| code := 200;
              body := [("message", VStr "PDF uploaded successfully, conversion started");
                       ("jobId", VNum jobId);
                       ("directoryId", DirId_val directoryId)] |},
           {| conversionJobs := <[jobId := job]> (conversionJobs s);
              jobCounter := jobId;
              fs := fs';
              tasks := <[jobId := Task.start pdfPath directoryId jobId]> (tasks s) |})
      end
  end.

(** One turn of the event loop for a pipeline run: the run of [jobId]
    resumes with the answers [e]. *)
Definition advance (jobId : Z) (e : Env) (s : State) : State :=
  match tasks s !! jobId with
  | None => s
  | Some k =>
      let m := step e {| m_jobs := conversionJobs s; m_fs := fs s;
                         m_task := k; m_trace := [] |} in
      {| conversionJobs := m_jobs m; jobCounter := jobCounter s;
         fs := m_fs m; tasks := <[jobId := m_task m]> (tasks s) |}
  end.

(** What can happen to the server. *)
Inductive label : Type :=
| LUpload (req : UploadReq) (dateNow newDate : Time)
| LGetJob (jobId : option Z)
| LCleanup
| LAdvance (jobId : Z) (e : Env)
| LDisk (fs' : filesys).   (* multer storing a file, or anything else on the disk *)

Definition server_step (l : label) (s : State) : State :=
  match l with
  | LUpload req dateNow newDate => (upload req dateNow newDate s).2
  | LGetJob jobId => (get_job jobId s).2
  | LCleanup => (maintenance_cleanup s).2
  | LAdvance jobId e => advance jobId e s
  | LDisk fs' =>
      {| conversionJobs := conversionJobs s; jobCounter := jobCounter s;
         fs := fs'; tasks := tasks s |}
  end.

Definition initial (fs0 : filesys) : State :=
  {| conversionJobs := ∅; jobCounter := 0; fs := fs0; tasks := ∅ |}.

Inductive reachable : State → Prop :=
| reachable_initial fs0 : reachable (initial fs0)
| reachable_step l s : reachable s → reachable (server_step l s).

(** ** Properties: vocabulary *)

(** The moves of the [status] field that the state machine allows in one
    step. *)
Inductive status_move : Status → Status → Prop :=
| move_stay s : status_move s s
| move_start : status_move pending processing
| move_complete : status_move processing completed
| move_fail : status_move processing failed.

Definition terminal (s : Status) : bool :=
  match s with
  | completed | failed => true
  | _ => false
  end.

(** The run has not opened the document yet. *)
Definition before_open (pc : PC) : bool :=
  match pc with
  | Scheduled | AwaitCleanAccess | AwaitCleanReaddir | AwaitCleanUnlink _ _
  | AwaitAccess | AwaitReadFile | AwaitGetDocument _ => true
  | _ => false
  end.

(** The run is past [getDocument] and has not settled. *)
Definition document_open (pc : PC) : bool :=
  match pc with
  | AwaitMkdir | AwaitGetPage _ | AwaitRender _ | AwaitOptimize _ _
  | AwaitWriteFile _ _ => true
  | _ => false
  end.

Definition keys (b : list (string * jsval)) : list string := b.*1.

Definition public_fields : list string :=
  ["id"; "directoryId"; "status"; "progress"; "processedPages"; "totalPages";
   "outputPath"; "startTime"; "endTime"; "error"; "errors"; "compressionRatio"].

(** What the record of a job looks like while its run is at [Task.pc k]. *)
Definition job_inv (job : Job.t) (k : Task.t) : Prop :=
  Job.processedPages job ≤ Job.totalPages job ∧
  match Task.pc k with
  | Scheduled =>
      Job.status job = pending ∧ Job.outputPath job = None ∧
      Job.processedPages job = 0 ∧ Job.totalPages job = 0
  | AwaitCleanAccess | AwaitCleanReaddir | AwaitCleanUnlink _ _
  | AwaitAccess | AwaitReadFile | AwaitGetDocument _ =>
      Job.status job = processing ∧ Job.outputPath job = None ∧
      Job.processedPages job = 0 ∧ Job.totalPages job = 0
  | AwaitMkdir =>
      Job.status job = processing ∧ Job.outputPath job = None ∧
      Job.processedPages job = 0 ∧ Job.totalPages job = Task.totalPages k
  | AwaitGetPage n | AwaitRender n | AwaitOptimize n _ | AwaitWriteFile n _ =>
      Job.status job = processing ∧ Job.outputPath job = None ∧
      Job.totalPages job = Task.totalPages k ∧
      1 ≤ n ∧ n ≤ Task.totalPages k ∧ Job.processedPages job < n
  | Settled (Ok out) =>
      Job.status job = completed ∧ Job.outputPath job = Some out ∧
      Job.progress job = Percent 100 ∧
      Job.compressionRatio job =
        Some (toFixed2 (js_div (Task.totalOriginalSize k) (Task.totalCompressedSize k)))
  | Settled (Throw _) =>
      Job.status job = failed ∧ Job.outputPath job = None
  end.

(** Every scheduled run has its record, every record its run, and no
    record has an id above the counter. *)
Definition server_inv (s : State) : Prop :=
  (∀ i k, tasks s !! i = Some k →
     Task.jobId k = i ∧ ∃ job, conversionJobs s !! i = Some job ∧ job_inv job k) ∧
  (∀ i job, conversionJobs s !! i = Some job →
     (i ≤ jobCounter s)%Z ∧ is_Some (tasks s !! i)).

(** A machine about to start the run of a record as the upload handler
    creates it. *)
Definition fresh (m : Machine) : Prop :=
  Task.pc (m_task m) = Scheduled ∧ m_trace m = [] ∧
  ∃ job, m_jobs m !! Task.jobId (m_task m) = Some job ∧ job_inv job (m_task m).

Definition is_clean (ev : event) : bool :=
  match ev with
  | EvCleanAccess _ | EvCleanReaddir _ | EvCleanUnlink _ => true
  | _ => false
  end.

Definition got_page (ev : event) : option nat :=
  match ev with
  | EvGetPage n => Some n
  | _ => None
  end.

Definition written_page (ev : event) : option nat :=
  match ev with
  | EvWriteFile n _ _ => Some n
  | _ => None
  end.

(** The bytes [optimizeImage] returns for the raw image [raw]. *)
Definition optimized (e : Env) (raw : bytes) : bytes :=
  match toBuffer e (sharpInstance_for raw format) with
  | Ok b => b
  | Throw _ => raw
  end.

(** A write of the page loop goes to [<outputDir>/<directoryId>/<n>.<format>]
    and carries the optimized bytes of that page. *)
Definition write_ok (e : Env) (directoryId : DirId) (ev : event) : Prop :=
  match ev with
  | EvWriteFile n p data =>
      p = config.outputDir ++ [DirId_toString directoryId; dec n +:+ "." +:+ format] ∧
      ∃ raw, canvas_toBuffer e n mime = Ok raw ∧ data = optimized e raw
  | _ => True
  end.

(** ** Properties: the claims as the specification words them *)

(** The cleanup endpoint as the specification words it: every file of the
    input directory is deleted, nothing at or below the output directory
    changes, and the answer is 500 exactly when a delete throws, 200
    otherwise. *)
Definition cleanup_as_specified (s : State) : Prop :=
  let r := maintenance_cleanup s in
  (∀ f data, nodes (fs s) !! path_join config.inputDir f = Some (File data) →
             nodes (fs r.2) !! path_join config.inputDir f = None) ∧
  (∀ rest, nodes (fs r.2) !! (config.outputDir ++ rest) =
           nodes (fs s) !! (config.outputDir ++ rest)) ∧
  (code r.1 = 500 ↔
     ∃ f message, f ∈ children (fs s) config.inputDir ∧
                  fs_unlink (fs s) (path_join config.inputDir f) = Throw message) ∧
  (code r.1 ≠ 500 → code r.1 = 200).

(** C1, as the specification words it: whenever a run completes with no
    compressed byte counted, its record holds a numeric compression
    ratio. *)
Definition ratio_guarded (e : Env) (n : nat) (m : Machine) : Prop :=
  ∀ out,
    Task.pc (m_task (run e n m)) = Settled (Ok out) →
    Task.totalCompressedSize (m_task (run e n m)) = 0 →
    ∃ job ratio, m_jobs (run e n m) !! Task.jobId (m_task m) = Some job ∧
                 Job.compressionRatio job = Some ratio ∧
                 is_numeric ratio = true.

(** ** Properties: the invariant of a run *)

(** Cleaning first, then the check of the source file, then the rest. *)
Inductive ordered (pdfPath : path) : list event → Prop :=
| ordered_cleaning cl :
    Forall (λ ev, is_clean ev = true) cl → ordered pdfPath cl
| ordered_checked cl rest :
    Forall (λ ev, is_clean ev = true) cl →
    Forall (λ ev, is_clean ev = false) rest →
    ordered pdfPath (cl ++ EvAccess pdfPath :: rest).

Definition checked (pdfPath : path) (tr : list event) : Prop :=
  ∃ cl rest, tr = cl ++ EvAccess pdfPath :: rest ∧
             Forall (λ ev, is_clean ev = true) cl ∧
             Forall (λ ev, is_clean ev = false) rest.

Definition pipeline_inv (e : Env) (m : Machine) : Prop :=
  let k := m_task m in
  let dir := pdfOutputDir (Task.directoryId k) in
  let tr := m_trace m in
  let got := omap got_page tr in
  let wr := omap written_page tr in
  got = seq 1 (length got) ∧
  Forall (write_ok e (Task.directoryId k)) tr ∧
  StronglySorted lt wr ∧
  Forall (λ w, w ≤ length got) wr ∧
  match Task.pc k with
  | Scheduled | AwaitCleanAccess =>
      fs_wf (m_fs m) ∧ Forall (λ ev, is_clean ev = true) tr ∧ got = [] ∧ wr = []
  | AwaitCleanReaddir =>
      Forall (λ ev, is_clean ev = true) tr ∧ got = [] ∧ wr = []
  | AwaitCleanUnlink file rest =>
      (∀ n, is_Some (nodes (m_fs m) !! (dir ++ [n])) → n ∈ file :: rest) ∧
      Forall (λ ev, is_clean ev = true) tr ∧ got = [] ∧ wr = []
  | AwaitAccess =>
      children (m_fs m) dir = [] ∧
      Forall (λ ev, is_clean ev = true) tr ∧ got = [] ∧ wr = []
  | AwaitReadFile | AwaitGetDocument _ | AwaitMkdir =>
      checked (Task.pdfPath k) tr ∧ got = [] ∧ wr = []
  | AwaitGetPage n =>
      checked (Task.pdfPath k) tr ∧ 1 ≤ n ∧ length got = n - 1 ∧ n ≤ Task.totalPages k
  | AwaitRender n =>
      checked (Task.pdfPath k) tr ∧ length got = n ∧ n ≤ Task.totalPages k ∧
      Forall (λ w, w < n) wr
  | AwaitOptimize n raw =>
      checked (Task.pdfPath k) tr ∧ length got = n ∧ n ≤ Task.totalPages k ∧
      Forall (λ w, w < n) wr ∧ canvas_toBuffer e n mime = Ok raw
  | AwaitWriteFile n data =>
      checked (Task.pdfPath k) tr ∧ length got = n ∧ n ≤ Task.totalPages k ∧
      Forall (λ w, w < n) wr ∧
      ∃ raw, canvas_toBuffer e n mime = Ok raw ∧ data = optimized e raw
  | Settled outcome =>
      ordered (Task.pdfPath k) tr ∧ length got ≤ Task.totalPages k ∧
      match outcome with
      | Ok _ => length got = Task.totalPages k
      | Throw _ => True
      end
  end.

(** ** Concrete disks, requests and runs *)

(** An input directory with two uploads, one of which the operating system
    refuses to remove. *)
Definition disk_locked : filesys :=
  {| nodes := list_to_map
       [ (["pdfs"], Dir);
         (["pdfs"; "a.pdf"], File [Byte.x25; Byte.x50]);
         (["pdfs"; "b.pdf"], File [Byte.x25; Byte.x50]);
         (["images"], Dir) ];
     locked := {[ ["pdfs"; "b.pdf"] ]} |}.

(** A disk after one upload under the directory identifier 42, with the
    output of an earlier conversion still there. *)
Definition disk_plain : filesys :=
  {| nodes := list_to_map
       [ (["pdfs"], Dir);
         (["pdfs"; "42.pdf"], File [Byte.x25; Byte.x50; Byte.x44; Byte.x46]);
         (["images"], Dir);
         (["images"; "42"], Dir);
         (["images"; "42"; "1.jpeg"], File [Byte.xff; Byte.xd8]) ];
     locked := ∅ |}.

Definition upload_42 : UploadReq :=
  {| file_path := Some ["pdfs"; "42.pdf"]; body_directoryId := Some "42" |}.

(** The server after that upload. *)
Definition uploaded : State :=
  server_step (LUpload upload_42 1700000000000%N 1700000000001%N) (initial disk_plain).

Definition machine_for (s : State) (k : Task.t) : Machine :=
  {| m_jobs := conversionJobs s; m_fs := fs s; m_task := k; m_trace := [] |}.

(** The run the upload has scheduled. *)
Definition run_42 : Machine :=
  machine_for uploaded (Task.start ["pdfs"; "42.pdf"] (IdStr "42") 1).

(** A two-page document whose first page does not render and whose second
    page the encoder rejects. *)
Definition env_page1_fails : Env :=
  {| now := 1700000000500%N;
     getDocument := λ _, Ok 2;
     getPage := λ _, Ok tt;
     render := λ n, if decide (n = 1) then Throw "Invalid page content" else Ok tt;
     canvas_toBuffer := λ _ _, Ok [Byte.xff; Byte.xd8; Byte.xff];
     toBuffer := λ _, Throw "Input buffer contains unsupported image format";
     page_cleanup := λ _, Ok tt |}.

(** A one-page document whose page does not render. *)
Definition env_no_page : Env :=
  {| now := 1700000000500%N;
     getDocument := λ _, Ok 1;
     getPage := λ _, Ok tt;
     render := λ _, Throw "Invalid page content";
     canvas_toBuffer := λ _ _, Ok [Byte.xff; Byte.xd8; Byte.xff];
     toBuffer := λ s, Ok (sharp_input s);
     page_cleanup := λ _, Ok tt |}.

Definition server_run (ls : list label) (s : State) : State :=
  foldl (λ s l, server_step l s) s ls.

(** The server after the scheduled run has taken its fourteen steps. *)
Definition finished : State :=
  server_run (replicate 14 (LAdvance 1 env_page1_fails)) uploaded.

Definition job_42_created : Job.t :=
  Job.mk 1 (IdStr "42") ["pdfs"; "42.pdf"] pending (Percent 0) 1700000000001%N 0 0
         None None None None None None.

Definition job_42_page1 : Job.t :=
  Job.mk 1 (IdStr "42") ["pdfs"; "42.pdf"] processing (Percent 0) 1700000000001%N 0 2
         (Some 1) None None None None None.

Definition job_42_finished : Job.t :=
  Job.mk 1 (IdStr "42") ["pdfs"; "42.pdf"] completed (Percent 100) 1700000000001%N 1 2
         (Some 2) None (Some ["Error on page 1: Invalid page content"])
         (Some ["images"; "42"]) (Some 1700000000500%N) (Some (Fixed 3 3)).

(** A check of [fs_wf] that computes. *)
Definition fs_wf_b (fs : filesys) : bool :=
  forallb (λ kv : list string * node, is_dir fs (parent kv.1)) (map_to_list (nodes fs)).

(** ** The rest of the server *)

(** What [app.get('/api/health')] answers; [uptime] is [process.uptime()],
    in seconds. *)
Record HealthBody : Type := {
  h_status : string;
  h_version : string;
  h_activeJobs : nat;
  h_uptime : Q;
}.

Definition health (uptime : Q) (s : State) : nat * HealthBody * State :=
  (200,
   {| h_status := "ok"; h_version := "1.0.0";
      h_activeJobs := size (conversionJobs s); h_uptime := uptime |},
   s).

(** How the callback of [app.listen] ends. *)
Inductive Started : Type :=
| Listening
| Exited (code : nat).   (* process.exit(code) *)

(** The callback of [app.listen]. *)
Definition startup (fs0 : filesys) : Started * filesys :=
  match (let* _ := ensureDirectoriesExist in cleanupDirectories) fs0 with
  | (Ok _, fs') => (Listening, fs')
  | (Throw _, fs') => (Exited 1, fs')
  end.

(** [cleanDirectoryImages(directoryId)] in one go, with nothing else
    touching the disk while it runs. *)
Definition cleanDirectoryImages (directoryId : DirId) : FS unit :=
  let dirPath := path_join config.outputDir (DirId_toString directoryId) in
  fs_try
    (λ fs,
       match fs_access fs dirPath with
       | Throw _ => (Ok tt, fs)
       | Ok _ =>
           (let* files := fs_read (λ fs, fs_readdir fs dirPath) in
            unlink_each dirPath files) fs
       end)
    (λ error fs, (Throw error, fs)).

(** ** More properties: vocabulary *)

Definition is_settled (pc : PC) : bool :=
  match pc with
  | Settled _ => true
  | _ => false
  end.

(** [job.errors.length], 0 while [errors] is [undefined]. *)
Definition error_count (job : Job.t) : nat := length (default [] (Job.errors job)).

(** The value [progress] has while the job is not completed. *)
Definition progress_of (job : Job.t) : Progress :=
  match Job.processedPages job with
  | O => Percent 0
  | S _ => FloorPercent (Job.processedPages job) (Job.totalPages job)
  end.

(** More of what the record of a job looks like while its run is at
    [Task.pc k]: the fields the upload handler wrote, the fields only an
    end of the run writes, the progress and the count of page errors. *)
Definition job_ext (job : Job.t) (k : Task.t) : Prop :=
  Job.id job = Task.jobId k ∧
  Job.directoryId job = Task.directoryId k ∧
  Job.pdfPath job = Task.pdfPath k ∧
  Job.errors job ≠ Some [] ∧
  match Task.pc k with
  | Scheduled | AwaitCleanAccess | AwaitCleanReaddir | AwaitCleanUnlink _ _
  | AwaitAccess | AwaitReadFile | AwaitGetDocument _ | AwaitMkdir =>
      Job.endTime job = None ∧ Job.error job = None ∧
      Job.compressionRatio job = None ∧
      Job.progress job = Percent 0 ∧ Job.errors job = None ∧
      Job.currentPage job = None
  | AwaitGetPage n | AwaitRender n | AwaitOptimize n _ | AwaitWriteFile n _ =>
      Job.endTime job = None ∧ Job.error job = None ∧
      Job.compressionRatio job = None ∧
      Job.progress job = progress_of job ∧
      Job.currentPage job = Some n ∧
      n - 1 ≤ Job.processedPages job + error_count job ∧
      error_count job ≤ n - 1
  | Settled (Ok _) =>
      is_Some (Job.endTime job) ∧ Job.error job = None ∧
      is_Some (Job.compressionRatio job) ∧
      Job.totalPages job = Task.totalPages k ∧
      Job.totalPages job ≤ Job.processedPages job + error_count job ∧
      error_count job ≤ Job.totalPages job
  | Settled (Throw message) =>
      is_Some (Job.endTime job) ∧ Job.error job = Some message ∧
      Job.compressionRatio job = None ∧
      Job.progress job = progress_of job
  end.

Definition server_ext (s : State) : Prop :=
  ∀ i k job, tasks s !! i = Some k → conversionJobs s !! i = Some job → job_ext job k.

(** The name of the image of page [n]. *)
Definition page_file (pageNum : nat) : string := dec pageNum +:+ "." +:+ format.

(** [body[key]] of an answer. *)
Fixpoint body_get (key : string) (b : list (string * jsval)) : jsval :=
  match b with
  | [] => VUndefined
  | (k, v) :: b' => if decide (k = key) then v else body_get key b'
  end.

(** The run comes to an end after some number of steps. *)
Definition settles (e : Env) (m : Machine) : Prop :=
  ∃ n, is_settled (Task.pc (m_task (run e n m))) = true.

(** What the output directory of a run holds, by program counter: nothing
    from the check of the source file to [mkdir], then one file per page
    counted in [processedPages], named after a page already done. *)
Definition out_inv (m : Machine) : Prop :=
  let k := m_task m in
  let dir := pdfOutputDir (Task.directoryId k) in
  match Task.pc k with
  | AwaitReadFile | AwaitGetDocument _ | AwaitMkdir => children (m_fs m) dir = []
  | AwaitGetPage n | AwaitRender n | AwaitOptimize n _ | AwaitWriteFile n _ =>
      ∃ job, m_jobs m !! Task.jobId k = Some job ∧
             length (children (m_fs m) dir) = Job.processedPages job ∧
             Forall (λ c, ∃ j, 1 ≤ j ∧ j < n ∧ c = page_file j) (children (m_fs m) dir)
  | Settled (Ok out) =>
      out = dir ∧
      ∃ job, m_jobs m !! Task.jobId k = Some job ∧
             length (children (m_fs m) dir) = Job.processedPages job ∧
             Forall (λ c, ∃ j, 1 ≤ j ∧ j ≤ Job.totalPages job ∧ c = page_file j)
                    (children (m_fs m) dir)
  | _ => True
  end.

(** ** The batch script

    The second source file converts every PDF of the input directory in one
    process: no server, no job records, no optimizer, no clearing of old
    output. *)

(** [s.endsWith(suffix)] *)
Definition endsWith (s suffix : string) : bool :=
  (String.length suffix <=? String.length s)%nat &&
  String.eqb (substring (String.length s - String.length suffix)
                        (String.length suffix) s) suffix.


Module Batch.
Definition imageFormat : string := "png".
Definition scale : Q := 2.

Definition throw {A} (message : string) : FS A := λ fs, (Throw message, fs).

Definition ensureDirectoriesExist : FS unit :=
  fs_try (fs_write (λ fs, fs_mkdir fs config.outputDir)) (λ error, throw error).

Definition imagePath (pdfOutputDir : path) (pageNum : nat) : path :=
  path_join pdfOutputDir (dec pageNum +:+ "." +:+ imageFormat).



Definition getAllPDFFiles : FS (list path) :=
  fs_try
    (let* files := fs_read (λ fs, fs_readdir fs config.inputDir) in
     fs_ret (path_join config.inputDir <$>
               filter (λ file, endsWith (toLowerCase file) ".pdf" = true) files))
    (λ error, throw error).



End Batch.

(** ** The multer storage *)




(** A document that pdf.js cannot open. *)
Definition env_bad_document : Env :=
  {| now := 1700000000500%N;
     getDocument := λ _, Throw "Invalid PDF structure";
     getPage := λ _, Ok tt;
     render := λ _, Ok tt;
     canvas_toBuffer := λ _ _, Ok [Byte.xff; Byte.xd8; Byte.xff];
     toBuffer := λ s, Ok (sharp_input s);
     page_cleanup := λ _, Ok tt |}.

(** The server after the scheduled run has met that document. *)
Definition failed_early : State :=
  server_run (replicate 7 (LAdvance 1 env_bad_document)) uploaded.

Definition job_42_failed : Job.t :=
  Job.mk 1 (IdStr "42") ["pdfs"; "42.pdf"] failed (Percent 0) 1700000000001%N 0 0
         None (Some "Invalid PDF structure") None None (Some 1700000000500%N) None.

(** An upload without a file. *)
Definition upload_nothing : UploadReq :=
  {| file_path := None; body_directoryId := Some "42" |}.

(** The run of job 1 when it is about to check its uploaded file. *)
Definition waiting : State :=
  server_run (replicate 4 (LAdvance 1 env_page1_fails)) uploaded.

(** ** The image optimizer: theorem *)

(** C3. [optimizeImage] returns for every input buffer, page number, page
    count and format: the encoder's bytes, or, when the encoding throws, the
    input buffer itself; and the pipeline step that awaits it leaves every
    job record as it was and goes on to write the page. *)
Theorem optimizeImage_never_throws :
  (∀ (encode : SharpInstance → result bytes) (imageBuffer : bytes)
     (pageNum totalPages : nat) (fmt : string),
     optimizeImage encode imageBuffer pageNum totalPages fmt =
       Ok (match encode (sharpInstance_for imageBuffer fmt) with
           | Ok optimizedImageBuffer => optimizedImageBuffer
           | Throw _ => imageBuffer
           end)) ∧
  (∀ (e : Env) (m : Machine) (pageNum : nat) (raw : bytes),
     let m' := step e (goto (AwaitOptimize pageNum raw) m) in
     m_jobs m' = m_jobs m ∧
     Task.pc (m_task m') = AwaitWriteFile pageNum (optimized e raw)).
Proof.
  split.
  - intros encode imageBuffer pageNum totalPages fmt. unfold optimizeImage.
    destruct (encode _); reflexivity.
  - intros e m pageNum raw. cbn. unfold optimizeImage, optimized.
    destruct (toBuffer e _); cbn; split; reflexivity.
Qed.

(** ** The status endpoint *)

(** C9. [GET /api/jobs/:jobId] answers 404 with [{ error: 'Job not found' }]
    when the tracker has no record under the id, and otherwise 200 with
    exactly the twelve public fields, each holding the record's value. *)
Theorem get_job_response (jobId : option Z) (s : State) :
  match jobId ≫= (λ i, conversionJobs s !! i) with
  | None =>
      (get_job jobId s).1 = {| code := 404; body := [("error", VStr "Job not found")] |}
  | Some job =>
      code (get_job jobId s).1 = 200 ∧
      keys (body (get_job jobId s).1) = public_fields ∧
      Forall (λ kv, kv.2 = Job_get kv.1 job) (body (get_job jobId s).1)
  end.
Proof.
  unfold get_job. destruct (jobId ≫= _) as [job|]; [|reflexivity].
  cbn. repeat split. repeat constructor.
Qed.

(** C10. [GET /api/jobs/:jobId] leaves the tracker, every job record, the
    disk and the scheduled runs as they were, and the body it builds has
    neither [pdfPath] nor [currentPage] among its keys. *)
Theorem get_job_readonly (jobId : option Z) (s : State) :
  (get_job jobId s).2 = s ∧
  server_step (LGetJob jobId) s = s ∧
  bool_decide ("pdfPath" ∈ keys (body (get_job jobId s).1)) = false ∧
  bool_decide ("currentPage" ∈ keys (body (get_job jobId s).1)) = false.
Proof.
  unfold server_step, get_job.
  destruct (jobId ≫= _) as [job|]; cbn; repeat split; reflexivity.
Qed.

(** ** The file system *)

Lemma child_name_spec (dir p : path) (n : string) :
  child_name dir p = Some n ↔ p = dir ++ [n].
Proof.
  revert p. induction dir as [|d dir IH]; intros p; cbn.
  - destruct p as [|c [|c' p]]; split; intros H; try discriminate; congruence.
  - destruct p as [|c p]; [split; discriminate|].
    case_decide as Hd.
    + subst c. rewrite IH. split; intros H; congruence.
    + split; [discriminate|]. intros H. congruence.
Qed.

Lemma elem_of_children (fs : filesys) (dir : path) (n : string) :
  n ∈ children fs dir ↔ is_Some (nodes fs !! (dir ++ [n])).
Proof.
  unfold children. rewrite list_elem_of_omap. split.
  - intros [[p x] [Hin Hc]]. cbn in Hc. apply child_name_spec in Hc. subst p.
    apply elem_of_map_to_list in Hin. eauto.
  - intros [x Hx]. exists (dir ++ [n], x). split.
    + by apply elem_of_map_to_list.
    + cbn. by apply child_name_spec.
Qed.

Lemma NoDup_children (fs : filesys) (dir : path) : NoDup (children fs dir).
Proof.
  unfold children.
  assert (∀ l : list (path * node), NoDup l.*1 →
            NoDup (omap (λ kv, child_name dir kv.1) l)) as Hgen.
  { induction l as [|[p x] l IH]; intros Hnd; cbn; [constructor|].
    apply NoDup_cons in Hnd as [Hp Hnd]. cbn in Hp.
    destruct (child_name dir p) as [n|] eqn:Hc; [|by apply IH].
    apply NoDup_cons. split; [|by apply IH].
    intros Hn. apply list_elem_of_omap in Hn as [[q y] [Hq Hcq]]. cbn in Hcq.
    apply child_name_spec in Hc, Hcq. subst p q.
    apply Hp. apply list_elem_of_fmap. by exists (dir ++ [n], y). }
  apply Hgen, NoDup_fst_map_to_list.
Qed.

Lemma path_join_inj (dir : path) (a b : string) :
  path_join dir a = path_join dir b → a = b.
Proof. unfold path_join. intros H. by simplify_list_eq. Qed.

Lemma fs_unlink_Ok (fs fs' : filesys) (p : path) :
  fs_unlink fs p = Ok fs' →
  nodes fs' = delete p (nodes fs) ∧ locked fs' = locked fs.
Proof.
  unfold fs_unlink. destruct (nodes fs !! p) as [[d|]|]; try discriminate.
  case_decide; [discriminate|]. intros [= <-]. done.
Qed.

(** What a loop of deletions leaves: nothing is created or changed, only
    files of [dir] named in [files] can go, and all of them are gone when
    the loop did not throw. *)
Lemma unlink_each_spec (dir : path) (files : list string) (fs : filesys) :
  let '(r, fs') := unlink_each dir files fs in
  locked fs' = locked fs ∧
  (∀ p, nodes fs' !! p = nodes fs !! p ∨
        (nodes fs' !! p = None ∧
         ∃ f data, f ∈ files ∧ p = path_join dir f ∧ nodes fs !! p = Some (File data))) ∧
  (r = Ok tt → ∀ f, f ∈ files → nodes fs' !! path_join dir f = None).
Proof.
  revert fs. induction files as [|f files IH]; intros fs; cbn.
  - split; [done|]. split; [by left|]. intros _ f Hf. by apply elem_of_nil in Hf.
  - unfold fs_bind, fs_write.
    destruct (fs_unlink fs (path_join dir f)) as [fs1|msg] eqn:Hu.
    + assert (∃ data, nodes fs !! path_join dir f = Some (File data)) as [d0 Hd0].
      { unfold fs_unlink in Hu. destruct (nodes fs !! path_join dir f) as [[d|]|]; eauto;
          discriminate. }
      apply fs_unlink_Ok in Hu as [Hn Hl].
      specialize (IH fs1). destruct (unlink_each dir files fs1) as [r fs'].
      destruct IH as (Hl' & Hkeep & Hgone). split; [congruence|]. split.
      * intros p. destruct (Hkeep p) as [Heq|[Hnone (g & data & Hg & -> & Hdata)]].
        -- rewrite Heq, Hn. destruct (decide (p = path_join dir f)) as [->|Hne].
           ++ right. rewrite lookup_delete_eq. split; [done|].
              exists f, d0. split; [left|done].
           ++ left. by rewrite lookup_delete_ne.
        -- right. split; [done|]. exists g, data. split; [by right|]. split; [done|].
           rewrite Hn in Hdata. by apply lookup_delete_Some in Hdata as [_ ?].
      * intros Hr g Hg. apply elem_of_cons in Hg as [->|Hg]; [|by apply Hgone].
        destruct (Hkeep (path_join dir f)) as [Heq|[Hnone _]]; [|done].
        by rewrite Heq, Hn, lookup_delete_eq.
    + split; [done|]. split; [by left|]. discriminate.
Qed.

Lemma unlink_each_Ok (dir : path) (files : list string) (fs : filesys) :
  NoDup files →
  (∀ f, f ∈ files →
        ∃ data, nodes fs !! path_join dir f = Some (File data) ∧
                path_join dir f ∉ locked fs) →
  (unlink_each dir files fs).1 = Ok tt.
Proof.
  revert fs. induction files as [|f files IH]; intros fs Hnd Hfiles; cbn; [done|].
  unfold fs_bind, fs_write, fs_unlink.
  destruct (Hfiles f) as (data & Hf & Hnl); [left|].
  rewrite Hf. rewrite decide_False by done.
  apply NoDup_cons in Hnd as [Hnotin Hnd].
  apply IH; [done|]. intros g Hg. cbn.
  destruct (Hfiles g) as (dg & Hgf & Hgl); [by right|].
  exists dg. split; [|done]. rewrite lookup_delete_ne; [done|].
  intros Heq. apply path_join_inj in Heq. by subst g.
Qed.

(** ** The maintenance endpoint *)

(** C2, as stated, fails: with a file that cannot be removed the delete
    throws, the endpoint still answers 200, and the other upload is left on
    the disk. *)
Lemma cleanup_as_specified_fails : ¬ cleanup_as_specified (initial disk_locked).
Proof.
  intros (_ & _ & [_ H500] & _).
  assert (code (maintenance_cleanup (initial disk_locked)).1 = 500) as Hc.
  { apply H500. exists "b.pdf", "EPERM: operation not permitted". split.
    - apply elem_of_children. vm_compute. eauto.
    - vm_compute. reflexivity. }
  vm_compute in Hc. discriminate.
Qed.

(** C2, amended. The cleanup endpoint answers 200 in every case, also when a
    delete throws; it touches no job record and nothing at or below the
    output directory; whatever it removes is a file directly in the input
    directory, and everything else on the disk stays as it was; and when the
    input directory exists and no delete throws, the input directory is
    empty afterwards. *)
Theorem cleanup_always_200 (s : State) :
  let r := maintenance_cleanup s in
  code r.1 = 200 ∧
  conversionJobs r.2 = conversionJobs s ∧
  (∀ rest, nodes (fs r.2) !! (config.outputDir ++ rest) =
           nodes (fs s) !! (config.outputDir ++ rest)) ∧
  (∀ p, nodes (fs r.2) !! p = nodes (fs s) !! p ∨
        (nodes (fs r.2) !! p = None ∧
         ∃ f data, p = path_join config.inputDir f ∧ nodes (fs s) !! p = Some (File data))) ∧
  (nodes (fs s) !! config.inputDir = Some Dir →
   (∀ f, f ∈ children (fs s) config.inputDir →
         ∃ fs', fs_unlink (fs s) (path_join config.inputDir f) = Ok fs') →
   children (fs r.2) config.inputDir = []).
Proof.
  cbn zeta. unfold maintenance_cleanup, cleanupDirectories, fs_try, fs_bind, fs_read, fs_readdir.
  destruct (nodes (fs s) !! config.inputDir) as [[d|]|] eqn:Hin; cbn;
    try (repeat split; try done; by left).
  pose proof (unlink_each_spec config.inputDir (children (fs s) config.inputDir) (fs s)) as Hspec.
  destruct (unlink_each config.inputDir (children (fs s) config.inputDir) (fs s))
    as [r fs'] eqn:Hrun.
  destruct Hspec as (Hl & Hkeep & Hgone).
  assert (Hfs : ∀ p, nodes fs' !! p = nodes (fs s) !! p ∨
                     (nodes fs' !! p = None ∧
                      ∃ f data, p = path_join config.inputDir f ∧
                                nodes (fs s) !! p = Some (File data))).
  { intros p. destruct (Hkeep p) as [?|[? (f & data & _ & ? & ?)]]; [by left|].
    right. split; [done|]. by exists f, data. }
  assert (Hout : ∀ rest, nodes fs' !! (config.outputDir ++ rest) =
                         nodes (fs s) !! (config.outputDir ++ rest)).
  { intros rest. destruct (Hfs (config.outputDir ++ rest)) as [?|[_ (f & data & Heq & _)]];
      [done|discriminate]. }
  assert (Hempty : (∀ f, f ∈ children (fs s) config.inputDir →
                         ∃ fs1, fs_unlink (fs s) (path_join config.inputDir f) = Ok fs1) →
                   children fs' config.inputDir = []).
  { intros Hall.
    assert (r = Ok tt) as Hr.
    { change r with (r, fs').1. rewrite <- Hrun.
      apply unlink_each_Ok; [apply NoDup_children|].
      intros f Hf. destruct (Hall f Hf) as [fs1 Hu]. unfold fs_unlink in Hu.
      destruct (nodes (fs s) !! path_join config.inputDir f) as [[data|]|]; try discriminate.
      case_decide; [discriminate|]. eauto. }
    destruct (children fs' config.inputDir) as [|n l] eqn:Hch; [done|].
    assert (n ∈ children fs' config.inputDir) as Hn by (rewrite Hch; left).
    apply elem_of_children in Hn as [x Hx].
    assert (n ∈ children (fs s) config.inputDir) as Hn0.
    { apply elem_of_children. destruct (Hfs (config.inputDir ++ [n])) as [Heq|[Hnone _]].
      - exists x. congruence.
      - congruence. }
    specialize (Hgone Hr n Hn0). unfold path_join in Hgone. congruence. }
  destruct r; cbn; repeat split; try done.
Qed.

(** ** One step of a run and the record of its job *)

#[local] Arguments dec : simpl never.
#[local] Arguments not_found_message : simpl never.
#[local] Arguments pdfOutputDir : simpl never.
#[local] Arguments imagePath : simpl never.
#[local] Arguments optimizeImage : simpl never.
#[local] Arguments fs_access : simpl never.
#[local] Arguments fs_readdir : simpl never.
#[local] Arguments fs_unlink : simpl never.
#[local] Arguments fs_readFile : simpl never.
#[local] Arguments fs_mkdir : simpl never.
#[local] Arguments fs_writeFile : simpl never.
#[local] Arguments String.append : simpl never.
#[local] Opaque format mime.

Ltac unfold_machine :=
  unfold outer_catch, skip_page, loop_head, complete, unlink_next, cleaned, goto,
    with_job, with_jobs, with_task, with_fs, emit in *.

Ltac leb_to_prop :=
  repeat match goal with
         | H : (_ <=? _)%nat = true |- _ => apply Nat.leb_le in H
         | H : (_ <=? _)%nat = false |- _ => apply Nat.leb_gt in H
         end.

(** Split a step into its branches: the program counter, then every answer
    the step looks at. *)
Ltac step_cases pc :=
  destruct pc; unfold step; cbn; repeat case_match; unfold_machine; cbn;
  repeat case_match; cbn.

Lemma step_jobId (e : Env) (m : Machine) :
  Task.jobId (m_task (step e m)) = Task.jobId (m_task m) ∧
  Task.pdfPath (m_task (step e m)) = Task.pdfPath (m_task m) ∧
  Task.directoryId (m_task (step e m)) = Task.directoryId (m_task m).
Proof.
  destruct m as [jobs fs0 [pdfPath dirId jid pc tp o c] tr]. cbn.
  step_cases pc; done.
Qed.

(** A step writes to no record but its own. *)
Lemma step_jobs_other (e : Env) (m : Machine) (i : Z) :
  i ≠ Task.jobId (m_task m) → m_jobs (step e m) !! i = m_jobs m !! i.
Proof.
  destruct m as [jobs fs0 [pdfPath dirId jid pc tp o c] tr]. cbn. intros Hne.
  step_cases pc; rewrite ?lookup_alter_ne by done; done.
Qed.

(** A step adds no record. *)
Lemma step_jobs_None (e : Env) (m : Machine) :
  m_jobs m !! Task.jobId (m_task m) = None →
  m_jobs (step e m) !! Task.jobId (m_task m) = None.
Proof.
  destruct m as [jobs fs0 [pdfPath dirId jid pc tp o c] tr]. cbn. intros Hnone.
  destruct pc; unfold step; cbn; rewrite ?Hnone; repeat case_match; unfold_machine; cbn;
    repeat case_match; cbn; rewrite ?lookup_alter_eq, ?Hnone; done.
Qed.

(** A step keeps the record of its job in line with the program counter,
    moves the status along the state machine and never lowers
    [processedPages]. *)
Lemma step_job_inv (e : Env) (m : Machine) (job : Job.t) :
  m_jobs m !! Task.jobId (m_task m) = Some job →
  job_inv job (m_task m) →
  ∃ job', m_jobs (step e m) !! Task.jobId (m_task m) = Some job' ∧
          job_inv job' (m_task (step e m)) ∧
          status_move (Job.status job) (Job.status job') ∧
          Job.processedPages job ≤ Job.processedPages job'.
Proof.
  destruct m as [jobs fs0 [pdfPath dirId jid pc tp o c] tr]. cbn.
  intros Hjob [Hle Hinv]. cbn in Hinv.
  destruct job; cbn in *.
  destruct pc; unfold step; cbn; destruct_and?; subst; rewrite ?Hjob;
    repeat case_match; unfold_machine; cbn;
    repeat case_match; cbn;
    rewrite ?lookup_alter_eq, ?Hjob; cbn;
    try (eexists; split; [reflexivity|]; unfold job_inv; cbn; leb_to_prop;
         intuition (try lia; try constructor)).
  all: congruence.
Qed.

(** ** The server keeps its invariant *)

Lemma server_inv_initial (fs0 : filesys) : server_inv (initial fs0).
Proof. split; intros i x Hx; cbn in Hx; by rewrite lookup_empty in Hx. Qed.

Lemma server_inv_disk (s : State) (fs' : filesys) :
  server_inv s →
  server_inv {| conversionJobs := conversionJobs s; jobCounter := jobCounter s;
                fs := fs'; tasks := tasks s |}.
Proof. intros H. exact H. Qed.

Lemma server_inv_upload (req : UploadReq) (dateNow newDate : Time) (s : State) :
  server_inv s → server_inv (upload req dateNow newDate s).2.
Proof.
  intros [Htasks Hjobs]. unfold upload.
  destruct (ensureDirectoriesExist (fs s)) as [[[]|msg] fs']; [|by split].
  destruct (file_path req) as [pdfPath|]; [|by split].
  set (jobId := (jobCounter s + 1)%Z).
  assert (conversionJobs s !! jobId = None) as Hfresh.
  { destruct (conversionJobs s !! jobId) as [job|] eqn:Hj; [|done].
    apply Hjobs in Hj as [Hle _]. unfold jobId in Hle. lia. }
  split; cbn.
  - intros i k Hk. destruct (decide (i = jobId)) as [->|Hne].
    + rewrite lookup_insert_eq in Hk. injection Hk as <-. split; [done|].
      eexists. rewrite lookup_insert_eq. split; [done|]. by repeat split.
    + rewrite lookup_insert_ne in Hk by done. rewrite lookup_insert_ne by done. eauto.
  - intros i job Hjob. destruct (decide (i = jobId)) as [->|Hne].
    + rewrite lookup_insert_eq. split; [lia|eauto].
    + rewrite lookup_insert_ne in Hjob by done. rewrite lookup_insert_ne by done.
      apply Hjobs in Hjob as [Hle Htask]. split; [|done]. unfold jobId. lia.
Qed.

Lemma server_inv_advance (jobId : Z) (e : Env) (s : State) :
  server_inv s → server_inv (advance jobId e s).
Proof.
  intros [Htasks Hjobs]. unfold advance.
  destruct (tasks s !! jobId) as [k|] eqn:Hk; [|by split].
  destruct (Htasks _ _ Hk) as [Hid (job & Hjob & Hinv)].
  set (m := {| m_jobs := conversionJobs s; m_fs := fs s; m_task := k; m_trace := [] |}).
  destruct (step_jobId e m) as (Hid' & _).
  destruct (step_job_inv e m job) as (job' & Hjob' & Hinv' & _); cbn; [by rewrite Hid|done|].
  cbn in Hid', Hjob'. rewrite Hid in Hid', Hjob'.
  split; cbn.
  - intros i k' Hk'. destruct (decide (i = jobId)) as [->|Hne].
    + rewrite lookup_insert_eq in Hk'. injection Hk' as <-. eauto.
    + rewrite lookup_insert_ne in Hk' by done.
      rewrite (step_jobs_other e m i) by (cbn; congruence). eauto.
  - intros i j Hj. destruct (decide (i = jobId)) as [->|Hne].
    + rewrite lookup_insert_eq. split; [|eauto]. by apply (Hjobs _ job).
    + rewrite lookup_insert_ne by done.
      rewrite (step_jobs_other e m i) in Hj by (cbn; congruence). eauto.
Qed.

Lemma server_inv_step (l : label) (s : State) :
  server_inv s → server_inv (server_step l s).
Proof.
  intros H. destruct l; cbn.
  - by apply server_inv_upload.
  - unfold get_job. by destruct (_ ≫= _).
  - unfold maintenance_cleanup. destruct (cleanupDirectories (fs s)) as [[[]|msg] fs']; exact H.
  - by apply server_inv_advance.
  - exact H.
Qed.

Lemma reachable_inv (s : State) : reachable s → server_inv s.
Proof.
  induction 1 as [fs0|l s _ IH]; [apply server_inv_initial|by apply server_inv_step].
Qed.

(** What one server step does to a record that is already there. *)
Lemma server_step_job (l : label) (s : State) (i : Z) (job : Job.t) :
  server_inv s →
  conversionJobs s !! i = Some job →
  ∃ job', conversionJobs (server_step l s) !! i = Some job' ∧
          status_move (Job.status job) (Job.status job') ∧
          Job.processedPages job ≤ Job.processedPages job'.
Proof.
  intros [Htasks Hjobs] Hjob.
  assert (∃ job', Some job = Some job' ∧ status_move (Job.status job) (Job.status job') ∧
                  Job.processedPages job ≤ Job.processedPages job') as Hsame.
  { exists job. split; [done|]. split; [constructor|lia]. }
  destruct l; cbn.
  - unfold upload.
    destruct (ensureDirectoriesExist (fs s)) as [[[]|msg] fs']; cbn; [|by rewrite Hjob].
    destruct (file_path req) as [pdfPath|]; cbn; [|by rewrite Hjob].
    rewrite lookup_insert_ne; [by rewrite Hjob|].
    apply Hjobs in Hjob as [Hle _]. lia.
  - unfold get_job. destruct (_ ≫= _); cbn; by rewrite Hjob.
  - unfold maintenance_cleanup.
    destruct (cleanupDirectories (fs s)) as [[[]|msg] fs']; cbn; by rewrite Hjob.
  - unfold advance. destruct (tasks s !! jobId) as [k|] eqn:Hk; [|by rewrite Hjob].
    destruct (Htasks _ _ Hk) as [Hid (job0 & Hjob0 & Hinv)]. cbn.
    set (m := {| m_jobs := conversionJobs s; m_fs := fs s; m_task := k; m_trace := [] |}).
    destruct (decide (i = jobId)) as [->|Hne].
    + assert (job0 = job) as -> by congruence.
      destruct (step_job_inv e m job) as (job' & Hjob' & _ & Hmove & Hpp);
        cbn; [by rewrite Hid|done|].
      cbn in Hjob'. rewrite Hid in Hjob'. eauto.
    + rewrite (step_jobs_other e m i) by (cbn; congruence). cbn. by rewrite Hjob.
  - by rewrite Hjob.
Qed.

(** What a record looks like when a server step has just added it. *)
Lemma server_step_new (l : label) (s : State) (i : Z) (job' : Job.t) :
  server_inv s →
  conversionJobs s !! i = None →
  conversionJobs (server_step l s) !! i = Some job' →
  Job.status job' = pending ∧ Job.outputPath job' = None ∧
  Job.processedPages job' = 0 ∧ Job.totalPages job' = 0.
Proof.
  intros [Htasks Hjobs] Hnone. destruct l; cbn.
  - unfold upload.
    destruct (ensureDirectoriesExist (fs s)) as [[[]|msg] fs']; cbn; [|congruence].
    destruct (file_path req) as [pdfPath|]; cbn; [|congruence].
    destruct (decide (i = (jobCounter s + 1)%Z)) as [->|Hne].
    + rewrite lookup_insert_eq. by intros [= <-].
    + rewrite lookup_insert_ne by done. congruence.
  - unfold get_job. destruct (_ ≫= _); cbn; congruence.
  - unfold maintenance_cleanup.
    destruct (cleanupDirectories (fs s)) as [[[]|msg] fs']; cbn; congruence.
  - unfold advance. destruct (tasks s !! jobId) as [k|] eqn:Hk; [|congruence].
    destruct (Htasks _ _ Hk) as [Hid _]. cbn.
    set (m := {| m_jobs := conversionJobs s; m_fs := fs s; m_task := k; m_trace := [] |}).
    destruct (decide (i = jobId)) as [->|Hne].
    + pose proof (step_jobs_None e m) as Hn. cbn in Hn. rewrite Hid in Hn.
      by rewrite Hn.
    + rewrite (step_jobs_other e m i) by (cbn; congruence). cbn. congruence.
  - congruence.
Qed.

(** ** Invariants of the job record *)

(** C4. In every reachable state of the server, whatever happens next
    (an upload, a status poll, a cleanup, a step of any pipeline run, a
    change of the disk), the status of a record stays or moves along
    pending → processing → completed or failed; the status of a completed
    or failed record does not change; no record disappears; and a record
    that appears has status pending. *)
Theorem status_only_forward (s : State) (l : label) (i : Z) :
  reachable s →
  match conversionJobs s !! i, conversionJobs (server_step l s) !! i with
  | Some job, Some job' =>
      status_move (Job.status job) (Job.status job') ∧
      (terminal (Job.status job) = true → Job.status job' = Job.status job)
  | Some job, None => False
  | None, Some job' => Job.status job' = pending
  | None, None => True
  end.
Proof.
  intros Hs. apply reachable_inv in Hs.
  destruct (conversionJobs s !! i) as [job|] eqn:Hjob.
  - destruct (server_step_job l s i job Hs Hjob) as (job' & -> & Hmove & _).
    split; [done|]. intros Hterm. inversion Hmove as [s0 H1 H2|H1 H2|H1 H2|H1 H2];
      try done; rewrite <- H1 in Hterm; discriminate.
  - destruct (conversionJobs (server_step l s) !! i) as [job'|] eqn:Hjob'; [|done].
    by destruct (server_step_new l s i job' Hs Hjob Hjob') as (? & _).
Qed.

(** C5. In every reachable state, [processedPages] of a record is at most
    its [totalPages]; while the run has not opened the document
    [totalPages] is 0, and once it has, [totalPages] is the document's page
    count; whatever happens next, [processedPages] does not decrease; and a
    record that appears has [processedPages] 0 and [totalPages] 0. *)
Theorem processedPages_bounded_monotone (s : State) (l : label) (i : Z) :
  reachable s →
  match conversionJobs s !! i with
  | Some job =>
      Job.processedPages job ≤ Job.totalPages job ∧
      (∃ k, tasks s !! i = Some k ∧
            (before_open (Task.pc k) = true → Job.totalPages job = 0) ∧
            (document_open (Task.pc k) = true → Job.totalPages job = Task.totalPages k)) ∧
      (∃ job', conversionJobs (server_step l s) !! i = Some job' ∧
               Job.processedPages job ≤ Job.processedPages job')
  | None =>
      ∀ job', conversionJobs (server_step l s) !! i = Some job' →
              Job.processedPages job' = 0 ∧ Job.totalPages job' = 0
  end.
Proof.
  intros Hs. apply reachable_inv in Hs.
  destruct (conversionJobs s !! i) as [job|] eqn:Hjob.
  - destruct (server_step_job l s i job Hs Hjob) as (job' & Hjob' & _ & Hpp).
    destruct Hs as [Htasks Hjobs].
    destruct (Hjobs _ _ Hjob) as [_ [k Hk]].
    destruct (Htasks _ _ Hk) as [_ (job0 & Hjob0 & Hle & Hpc)].
    assert (job0 = job) as -> by congruence.
    split; [done|]. split; [|eauto].
    exists k. split; [done|].
    destruct (Task.pc k); cbn; split; intros Hb; try discriminate; tauto.
  - intros job' Hjob'.
    by destruct (server_step_new l s i job' Hs Hjob Hjob') as (_ & _ & ? & ?).
Qed.

(** C6. In every reachable state of the server, a record has an
    [outputPath] if and only if its status is completed. *)
Theorem outputPath_iff_completed (s : State) (i : Z) (job : Job.t) :
  reachable s →
  conversionJobs s !! i = Some job →
  is_Some (Job.outputPath job) ↔ Job.status job = completed.
Proof.
  intros Hs Hjob. apply reachable_inv in Hs as [Htasks Hjobs].
  destruct (Hjobs _ _ Hjob) as [_ [k Hk]].
  destruct (Htasks _ _ Hk) as [_ (job0 & Hjob0 & Hle & Hpc)].
  assert (job0 = job) as -> by congruence.
  destruct (Task.pc k) as [| | | | | | | | | | | |[out|msg]];
    destruct_and?; split; intros Hgiven;
    repeat match goal with
           | H1 : Job.status job = _, H2 : Job.status job = _ |- _ => rewrite H1 in H2
           | H1 : Job.outputPath job = _, H2 : is_Some (Job.outputPath job) |- _ =>
               rewrite H1 in H2; destruct H2 as [? ?]
           end; try discriminate; eauto.
Qed.

Lemma checked_start (pdfPath : path) (tr : list event) :
  Forall (λ ev, is_clean ev = true) tr → checked pdfPath (tr ++ [EvAccess pdfPath]).
Proof. intros H. exists tr, []. by repeat split. Qed.

Lemma checked_snoc (pdfPath : path) (tr : list event) (ev : event) :
  is_clean ev = false → checked pdfPath tr → checked pdfPath (tr ++ [ev]).
Proof.
  intros Hev (cl & rest & -> & Hcl & Hrest). exists cl, (rest ++ [ev]).
  split; [by rewrite <- app_assoc|]. split; [done|].
  apply Forall_app. split; [done|]. by constructor.
Qed.

Lemma checked_ordered (pdfPath : path) (tr : list event) :
  checked pdfPath tr → ordered pdfPath tr.
Proof. intros (cl & rest & -> & Hcl & Hrest). by constructor. Qed.

Lemma seq_snoc (n : nat) : seq 1 n ++ [S n] = seq 1 (n + 1).
Proof. by rewrite seq_app. Qed.

Lemma children_nil (fs : filesys) (dir : path) :
  (∀ n, is_Some (nodes fs !! (dir ++ [n])) → False) → children fs dir = [].
Proof.
  intros H. destruct (children fs dir) as [|n l] eqn:Hc; [done|].
  exfalso. apply (H n), elem_of_children. rewrite Hc. left.
Qed.

Lemma access_fail_children (fs : filesys) (d : DirId) (message : string) :
  fs_wf fs → fs_access fs (pdfOutputDir d) = Throw message →
  children fs (pdfOutputDir d) = [].
Proof.
  intros Hwf Hacc. apply children_nil. intros n Hn. apply Hwf in Hn.
  unfold fs_access in Hacc. unfold is_dir, pdfOutputDir, path_join in *. cbn in *.
  destruct (nodes fs !! _); discriminate.
Qed.

Lemma readdir_children (fs : filesys) (dir : path) (files : list string) :
  fs_readdir fs dir = Ok files → files = children fs dir.
Proof.
  unfold fs_readdir. destruct (nodes fs !! dir) as [[?|]|]; congruence.
Qed.

Lemma unlink_children (fs fs' : filesys) (dir : path) (f : string) (rest : list string) :
  fs_unlink fs (path_join dir f) = Ok fs' →
  (∀ n, is_Some (nodes fs !! (dir ++ [n])) → n ∈ f :: rest) →
  ∀ n, is_Some (nodes fs' !! (dir ++ [n])) → n ∈ rest.
Proof.
  intros Hu Hin n Hn. apply fs_unlink_Ok in Hu as [Hnodes _]. rewrite Hnodes in Hn.
  destruct (decide (n = f)) as [->|Hne].
  - unfold path_join in Hn. rewrite lookup_delete_eq in Hn. by destruct Hn.
  - rewrite lookup_delete_ne in Hn.
    + apply Hin in Hn. apply elem_of_cons in Hn as [?|?]; done.
    + intros Heq. by apply path_join_inj in Heq.
Qed.

Lemma got_snoc (got : list nat) (n : nat) :
  got = seq 1 (length got) → 1 ≤ n → length got = n - 1 →
  got ++ [n] = seq 1 (length got + 1).
Proof.
  intros Hgot Hn Hlen. rewrite <- seq_snoc, <- Hgot. do 2 f_equal. lia.
Qed.

Lemma sorted_snoc (wr : list nat) (n : nat) :
  StronglySorted lt wr → Forall (λ w, w < n) wr → StronglySorted lt (wr ++ [n]).
Proof.
  induction 1 as [|w wr Hs IH Hall]; intros Hlt; cbn.
  - repeat constructor.
  - apply Forall_cons in Hlt as [Hw Hlt]. constructor; [by apply IH|].
    apply Forall_app. split; [done|]. by repeat constructor.
Qed.

Lemma Forall_le_weaken (wr : list nat) (a b : nat) :
  a ≤ b → Forall (λ w, w ≤ a) wr → Forall (λ w, w ≤ b) wr.
Proof. intros Hab H. eapply Forall_impl; [exact H|]. intros w Hw. cbn in Hw. lia. Qed.

Lemma Forall_le_lt (wr : list nat) (a b : nat) :
  a < b → Forall (λ w, w ≤ a) wr → Forall (λ w, w < b) wr.
Proof. intros Hab H. eapply Forall_impl; [exact H|]. intros w Hw. cbn in Hw. lia. Qed.

Ltac inv_solver :=
  destruct_and?;
  repeat match goal with
         | H : omap got_page ?tr = [] |- _ => rewrite H in *; clear H
         | H : omap written_page ?tr = [] |- _ => rewrite H in *; clear H
         end;
  cbn in *; rewrite ?app_nil_r, ?Nat.add_0_r in *;
  repeat split;
  try done;
  try (by repeat constructor);
  try (by apply checked_start);
  try (by apply checked_snoc);
  try (by apply checked_ordered, checked_snoc);
  try (by apply checked_ordered, checked_start);
  try (by apply checked_ordered);
  try (by apply ordered_cleaning);
  try (by apply ordered_cleaning, Forall_app; split; [|repeat constructor]);
  try lia.

Lemma step_pipeline_inv (e : Env) (m : Machine) :
  pipeline_inv e m → pipeline_inv e (step e m).
Proof.
  intros Hinv. remember (step e m) as m' eqn:Hm'.
  destruct m as [jobs fs0 [pdfPath dirId jid pc tp o c] tr].
  unfold pipeline_inv in Hinv. cbn in Hinv. destruct Hinv as (Hgot & Hwok & Hsort & Hwle & Hpc).
  destruct pc; unfold step in Hm'; cbn in Hm'; repeat case_match; unfold_machine; cbn in Hm';
    repeat case_match; subst m'; unfold pipeline_inv; cbn.
  all: rewrite ?omap_app, ?length_app, ?Forall_app; cbn.
  all: leb_to_prop.
  all: inv_solver.
  all: try (eapply access_fail_children; eassumption).
  all: try match goal with
           | H : fs_readdir _ _ = Ok _ |- _ => apply readdir_children in H
           end.
  all: try (intros n Hn; apply elem_of_children in Hn; congruence).
  all: try (apply children_nil; intros n Hn; apply elem_of_children in Hn; 
            match goal with H : [] = children _ _ |- _ => rewrite <- H in Hn end;
            by apply elem_of_nil in Hn).
  all: try (eapply unlink_children; eassumption).
  all: try (apply children_nil; intros n Hn; eapply unlink_children in Hn; [|eassumption..];
            by apply elem_of_nil in Hn).
  all: try (apply got_snoc; [done|lia|lia]).
  all: try (apply sorted_snoc; done). 
  all: try (eapply Forall_le_weaken; [|eassumption]; lia).
  all: try (eapply Forall_le_lt; [|eassumption]; lia).
  all: try (repeat constructor; lia).
  - by destruct (render e pageNum).
  - eexists. split; [eassumption|].
    match goal with H : optimizeImage _ _ _ _ _ = Ok _ |- _ => rename H into Hopt end.
    unfold optimizeImage, optimized in *.
    destruct (toBuffer e _); cbn in Hopt; congruence.
Qed.

Lemma run_add (e : Env) (a b : nat) (m : Machine) :
  run e (a + b) m = run e b (run e a m).
Proof. revert m. induction a as [|a IH]; intros m; cbn; [done|apply IH]. Qed.

Lemma run_S (e : Env) (n : nat) (m : Machine) :
  run e (S n) m = step e (run e n m).
Proof. replace (S n) with (n + 1) by lia. by rewrite run_add. Qed.


Lemma run_task_args (e : Env) (n : nat) (m : Machine) :
  Task.jobId (m_task (run e n m)) = Task.jobId (m_task m) ∧
  Task.pdfPath (m_task (run e n m)) = Task.pdfPath (m_task m) ∧
  Task.directoryId (m_task (run e n m)) = Task.directoryId (m_task m).
Proof.
  revert m. induction n as [|n IH]; intros m; cbn; [done|].
  destruct (IH (step e m)) as (-> & -> & ->). apply step_jobId.
Qed.

Lemma run_job_inv (e : Env) (n : nat) (m : Machine) (job : Job.t) :
  m_jobs m !! Task.jobId (m_task m) = Some job →
  job_inv job (m_task m) →
  ∃ job', m_jobs (run e n m) !! Task.jobId (m_task m) = Some job' ∧
          job_inv job' (m_task (run e n m)).
Proof.
  revert m job. induction n as [|n IH]; intros m job Hjob Hinv; cbn; [eauto|].
  destruct (step_job_inv e m job Hjob Hinv) as (job1 & Hjob1 & Hinv1 & _).
  destruct (step_jobId e m) as (Hid & _).
  destruct (IH (step e m) job1) as (job' & Hjob' & Hinv'); [by rewrite Hid|done|].
  rewrite Hid in Hjob'. eauto.
Qed.

Lemma fresh_pipeline_inv (e : Env) (m : Machine) :
  fresh m → fs_wf (m_fs m) → pipeline_inv e m.
Proof.
  intros (Hpc & Htr & _) Hwf. unfold pipeline_inv. rewrite Hpc, Htr. cbn.
  repeat split; try done; constructor.
Qed.


(** The check of the source file when the file is not there. *)
Lemma step_source_missing (e : Env) (m : Machine) (job : Job.t) :
  Task.pc (m_task m) = AwaitAccess →
  nodes (m_fs m) !! Task.pdfPath (m_task m) = None →
  m_jobs m !! Task.jobId (m_task m) = Some job →
  let message := not_found_message (Task.pdfPath (m_task m)) in
  Task.pc (m_task (step e m)) = Settled (Throw message) ∧
  m_trace (step e m) = m_trace m ++ [EvAccess (Task.pdfPath (m_task m))] ∧
  ∃ job', m_jobs (step e m) !! Task.jobId (m_task m) = Some job' ∧
          Job.status job' = failed ∧ Job.error job' = Some message.
Proof.
  destruct m as [jobs fs0 [pdfPath dirId jid pc tp o c] tr]. cbn.
  intros -> Hnone Hjob. unfold step, fs_access. cbn. rewrite Hnone. cbn.
  rewrite !lookup_alter_eq, Hjob. cbn.
  split; [done|]. split; [done|]. eexists. split; [reflexivity|]. by cbn.
Qed.



(** ** The page loop *)

#[local] Arguments loop_head : simpl never.
#[local] Arguments bind : simpl never.
#[local] Arguments Nat.leb : simpl never.

(** From the fetch of a page the run comes back to the loop test for the
    next page within four steps, whatever the renderer, the encoder and the
    disk answer, as long as the fetch itself does not throw. *)
Lemma page_iteration (e : Env) (m : Machine) (pageNum : nat) :
  Task.pc (m_task m) = AwaitGetPage pageNum →
  getPage e pageNum = Ok tt →
  ∃ steps m'', steps ≤ 4 ∧ run e steps m = loop_head e (S pageNum) m'' ∧
               Task.totalPages (m_task m'') = Task.totalPages (m_task m).
Proof.
  destruct m as [jobs fs0 [pdfPath dirId jid pc tp o c] tr]. cbn. intros -> Hget.
  destruct (bind (render e pageNum) (λ _, canvas_toBuffer e pageNum mime))
    as [raw|msg] eqn:Hrender.
  - destruct (optimizeImage (toBuffer e) raw pageNum tp format) as [data|msg] eqn:Hopt.
    + destruct (fs_writeFile fs0 (imagePath dirId pageNum) data) as [fs'|msg] eqn:Hwrite.
      * destruct (page_cleanup e pageNum) as [[]|msg] eqn:Hclean.
        -- exists 4. eexists. split; [lia|]. cbn. rewrite Hget. cbn. rewrite Hrender. cbn.
           rewrite Hopt. cbn. rewrite Hwrite, Hclean. split; reflexivity.
        -- exists 4. eexists. split; [lia|]. cbn. rewrite Hget. cbn. rewrite Hrender. cbn.
           rewrite Hopt. cbn. rewrite Hwrite, Hclean. unfold skip_page. split; reflexivity.
      * exists 4. eexists. split; [lia|]. cbn. rewrite Hget. cbn. rewrite Hrender. cbn.
        rewrite Hopt. cbn. rewrite Hwrite. unfold skip_page. split; reflexivity.
    + exists 3. eexists. split; [lia|]. cbn. rewrite Hget. cbn. rewrite Hrender. cbn.
      rewrite Hopt. unfold skip_page. split; reflexivity.
  - exists 2. eexists. split; [lia|]. cbn. rewrite Hget. cbn. rewrite Hrender.
    unfold skip_page. split; reflexivity.
Qed.

(** The loop ends: from the loop test the run settles with a result. *)
Lemma loop_head_settles (e : Env) :
  (∀ p, getPage e p = Ok tt) →
  ∀ d m pageNum,
    S (Task.totalPages (m_task m)) - pageNum ≤ d →
    ∃ steps out, steps ≤ 4 * d ∧
      Task.pc (m_task (run e steps (loop_head e pageNum m))) = Settled (Ok out).
Proof.
  intros Hget. induction d as [|d IH]; intros m pageNum Hd.
  - exists 0. eexists. split; [lia|]. cbn. unfold loop_head.
    rewrite (proj2 (Nat.leb_gt _ _)) by lia. reflexivity.
  - destruct (decide (pageNum ≤ Task.totalPages (m_task m))) as [Hle|Hgt].
    + set (m1 := loop_head e pageNum m).
      assert (Task.pc (m_task m1) = AwaitGetPage pageNum ∧
              Task.totalPages (m_task m1) = Task.totalPages (m_task m)) as [Hpc Htp].
      { unfold m1, loop_head. rewrite (proj2 (Nat.leb_le _ _)) by lia. by split. }
      destruct (page_iteration e m1 pageNum Hpc (Hget _)) as (k & m2 & Hk & Hrun & Htp2).
      destruct (IH m2 (S pageNum)) as (steps & out & Hsteps & Hout); [lia|].
      exists (k + steps), out. split; [lia|]. by rewrite run_add, Hrun.
    + exists 0. eexists. split; [lia|]. cbn. unfold loop_head.
      rewrite (proj2 (Nat.leb_gt _ _)) by lia. reflexivity.
Qed.

(** C7. When the render of a page throws, the step adds
    [Error on page <n>: <message>] to the [errors] of the job, leaves
    [processedPages] as it is and goes on: to the fetch of the next page with
    the job still processing, or, after the last page, to completion.  And
    from the fetch of any page, whatever every later render, encoding and
    write does, the run reaches status completed with [progress] 100, as long
    as no fetch of a page throws. *)
Theorem page_failure_tolerated :
  (∀ (e : Env) (m : Machine) (pageNum : nat) (message : string) (job : Job.t),
     Task.pc (m_task m) = AwaitRender pageNum →
     render e pageNum = Throw message →
     m_jobs m !! Task.jobId (m_task m) = Some job →
     job_inv job (m_task m) →
     ∃ job', m_jobs (step e m) !! Task.jobId (m_task m) = Some job' ∧
             Job.errors job' =
               Some (default [] (Job.errors job) ++
                     ["Error on page " +:+ dec pageNum +:+ ": " +:+ message]) ∧
             Job.processedPages job' = Job.processedPages job ∧
             ((Task.pc (m_task (step e m)) = AwaitGetPage (S pageNum) ∧
               Job.status job' = processing) ∨
              (∃ out, Task.pc (m_task (step e m)) = Settled (Ok out) ∧
                      pageNum = Task.totalPages (m_task m) ∧
                      Job.status job' = completed ∧
                      Job.progress job' = Percent 100))) ∧
  (∀ (e : Env) (m : Machine) (pageNum : nat) (job : Job.t),
     Task.pc (m_task m) = AwaitGetPage pageNum →
     m_jobs m !! Task.jobId (m_task m) = Some job →
     job_inv job (m_task m) →
     (∀ p, getPage e p = Ok tt) →
     ∃ steps job' out,
       Task.pc (m_task (run e steps m)) = Settled (Ok out) ∧
       m_jobs (run e steps m) !! Task.jobId (m_task m) = Some job' ∧
       Job.status job' = completed ∧
       Job.progress job' = Percent 100).
Proof.
  split.
  - intros e [jobs fs0 [pdfPath dirId jid pc tp o c] tr] pageNum message job. cbn.
    intros -> Hrender Hjob (Hle & Hst & Hout & Htp & H1 & Hn & Hpp). cbn in Htp, Hn.
    unfold step. cbn. unfold bind. rewrite Hrender. unfold skip_page, loop_head. cbn.
    destruct (Nat.leb_spec (S pageNum) tp) as [Hnext|Hlast]; unfold_machine; cbn;
      rewrite !lookup_alter_eq, Hjob; cbn.
    + eexists. split; [reflexivity|]. cbn. split; [done|]. split; [done|]. by left.
    + eexists. split; [reflexivity|]. cbn. split; [done|]. split; [done|]. right.
      eexists. split; [reflexivity|]. split; [lia|]. done.
  - intros e m pageNum job Hpc Hjob Hinv Hget.
    destruct (page_iteration e m pageNum Hpc (Hget _)) as (k & m2 & _ & Hrun & _).
    destruct (loop_head_settles e Hget (S (Task.totalPages (m_task m2))) m2 (S pageNum))
      as (steps & out & _ & Hout); [lia|].
    rewrite <- Hrun, <- run_add in Hout.
    destruct (run_job_inv e (k + steps) m job Hjob Hinv) as (job' & Hjob' & Hinv').
    exists (k + steps), job', out. split; [done|]. split; [done|].
    destruct Hinv' as [_ Hsettled]. rewrite Hout in Hsettled. by destruct Hsettled as (? & _ & ? & _).
Qed.

(** C1, amended. The division after the page loop has no guard.  Whenever a
    run completes with no compressed byte counted, its job is completed with
    [progress] 100 and the [compressionRatio] of the record is the string
    [NaN] when no original byte was counted either, and [Infinity]
    otherwise: never a number. *)
Theorem ratio_not_guarded (e : Env) (n : nat) (m : Machine) (out : path) :
  fresh m →
  Task.pc (m_task (run e n m)) = Settled (Ok out) →
  Task.totalCompressedSize (m_task (run e n m)) = 0 →
  ∃ job, m_jobs (run e n m) !! Task.jobId (m_task m) = Some job ∧
         Job.status job = completed ∧
         Job.progress job = Percent 100 ∧
         Job.compressionRatio job =
           Some (if decide (Task.totalOriginalSize (m_task (run e n m)) = 0)
                 then FixedNaN else FixedInfinity).
Proof.
  intros (_ & _ & job0 & Hjob0 & Hinv0) Hout Hzero.
  destruct (run_job_inv e n m job0 Hjob0 Hinv0) as (job & Hjob & _ & Hinv).
  rewrite Hout in Hinv. destruct Hinv as (Hst & _ & Hprog & Hratio).
  exists job. split; [done|]. split; [done|]. split; [done|].
  rewrite Hratio, Hzero. by destruct (Task.totalOriginalSize _).
Qed.

(** ** Worked instances *)

Lemma fs_wf_check (fs : filesys) : fs_wf_b fs = true → fs_wf fs.
Proof.
  unfold fs_wf_b. rewrite forallb_forall. intros Hall p n [x Hx].
  specialize (Hall (p ++ [n], x)). unfold parent in Hall. cbn [fst] in Hall.
  rewrite removelast_last in Hall. apply Hall.
  by apply list_elem_of_In, elem_of_map_to_list.
Qed.

Lemma reachable_run (ls : list label) (s : State) :
  reachable s → reachable (server_run ls s).
Proof.
  revert s. induction ls as [|l ls IH]; intros s Hs; cbn; [done|].
  apply IH. by constructor.
Qed.

Lemma reachable_uploaded : reachable uploaded.
Proof. apply reachable_step, reachable_initial. Qed.

Lemma fresh_run_42 : fresh run_42.
Proof.
  split; [reflexivity|]. split; [reflexivity|].
  exists job_42_created. split; [vm_compute; reflexivity|].
  repeat split; cbn; lia.
Defined.

Lemma fs_wf_disk_plain : fs_wf (m_fs run_42).
Proof. apply fs_wf_check. vm_compute. reflexivity. Defined.

(** C1, as stated, fails: the only page of the document does not render,
    the run completes with no byte counted, and the record holds the string
    [NaN]. *)
Lemma ratio_guarded_fails : ¬ ratio_guarded env_no_page 10 run_42.
Proof.
  intros H. destruct (H ["images"; "42"]) as (job & ratio & Hjob & Hratio & Hnum).
  - vm_compute. reflexivity.
  - vm_compute. reflexivity.
  - vm_compute in Hjob. injection Hjob as <-. cbn in Hratio. injection Hratio as <-.
    discriminate.
Qed.

(** The run of [ratio_guarded_fails] as an instance of the amended C1. *)
Lemma ratio_not_guarded_witness :
  fresh run_42 ∧
  Task.pc (m_task (run env_no_page 10 run_42)) = Settled (Ok ["images"; "42"]) ∧
  Task.totalCompressedSize (m_task (run env_no_page 10 run_42)) = 0 ∧
  ∃ job, m_jobs (run env_no_page 10 run_42) !! 1%Z = Some job ∧
         Job.status job = completed ∧
         Job.progress job = Percent 100 ∧
         Job.compressionRatio job = Some FixedNaN.
Proof.
  split; [exact fresh_run_42|].
  split; [vm_compute; reflexivity|].
  split; [vm_compute; reflexivity|].
  apply (ratio_not_guarded env_no_page 10 run_42 ["images"; "42"]).
  - exact fresh_run_42.
  - vm_compute. reflexivity.
  - vm_compute. reflexivity.
Defined.

(** The amended C2 on a disk whose only upload can be deleted: 200, and
    the input directory is empty afterwards. *)
Lemma cleanup_always_200_witness :
  nodes (fs (initial disk_plain)) !! config.inputDir = Some Dir ∧
  code (maintenance_cleanup (initial disk_plain)).1 = 200 ∧
  children (fs (maintenance_cleanup (initial disk_plain)).2) config.inputDir = [].
Proof.
  split; [vm_compute; reflexivity|].
  destruct (cleanup_always_200 (initial disk_plain)) as (Hcode & _ & _ & _ & Hempty).
  split; [exact Hcode|].
  apply Hempty; [vm_compute; reflexivity|].
  intros f Hf.
  assert (children (fs (initial disk_plain)) config.inputDir = ["42.pdf"]) as Hc
    by (vm_compute; reflexivity).
  rewrite Hc in Hf. apply list_elem_of_singleton in Hf as ->.
  eexists. vm_compute. reflexivity.
Defined.

(** C4 at the first step of the run of job 1: pending moves to
    processing. *)
Lemma status_only_forward_witness :
  reachable uploaded ∧
  status_move pending processing ∧
  (terminal pending = true → processing = pending).
Proof.
  split; [exact reachable_uploaded|].
  exact (status_only_forward uploaded (LAdvance 1 env_page1_fails) 1 reachable_uploaded).
Defined.

(** C5 at a status poll of the finished job 1. *)
Lemma processedPages_bounded_monotone_witness :
  reachable finished ∧
  match conversionJobs finished !! 1%Z with
  | Some job =>
      Job.processedPages job ≤ Job.totalPages job ∧
      (∃ k, tasks finished !! 1%Z = Some k ∧
            (before_open (Task.pc k) = true → Job.totalPages job = 0) ∧
            (document_open (Task.pc k) = true → Job.totalPages job = Task.totalPages k)) ∧
      (∃ job', conversionJobs (server_step (LGetJob (Some 1%Z)) finished) !! 1%Z = Some job' ∧
               Job.processedPages job ≤ Job.processedPages job')
  | None =>
      ∀ job', conversionJobs (server_step (LGetJob (Some 1%Z)) finished) !! 1%Z = Some job' →
              Job.processedPages job' = 0 ∧ Job.totalPages job' = 0
  end.
Proof.
  split; [apply reachable_run, reachable_uploaded|].
  apply (processedPages_bounded_monotone finished (LGetJob (Some 1%Z)) 1).
  apply reachable_run, reachable_uploaded.
Defined.

(** C6 at the finished job 1, which is completed and has its
    [outputPath]. *)
Lemma outputPath_iff_completed_witness :
  reachable finished ∧
  conversionJobs finished !! 1%Z = Some job_42_finished ∧
  (is_Some (Job.outputPath job_42_finished) ↔ Job.status job_42_finished = completed).
Proof.
  split; [apply reachable_run, reachable_uploaded|].
  split; [vm_compute; reflexivity|].
  apply (outputPath_iff_completed finished 1 job_42_finished).
  - apply reachable_run, reachable_uploaded.
  - vm_compute. reflexivity.
Defined.

Lemma job_inv_page1 : job_inv job_42_page1 (m_task (run env_page1_fails 8 run_42)).
Proof. vm_compute. repeat split; lia. Defined.

(** C7 at the two-page document whose first page does not render: the step
    that receives the failure, and the rest of the run from the fetch of
    page 1. *)
Lemma page_failure_tolerated_witness :
  (∃ job', m_jobs (step env_page1_fails (run env_page1_fails 9 run_42)) !!
             Task.jobId (m_task (run env_page1_fails 9 run_42)) = Some job' ∧
           Job.errors job' =
             Some (default [] (Job.errors job_42_page1) ++
                   ["Error on page " +:+ dec 1 +:+ ": " +:+ "Invalid page content"]) ∧
           Job.processedPages job' = Job.processedPages job_42_page1 ∧
           ((Task.pc (m_task (step env_page1_fails (run env_page1_fails 9 run_42))) =
               AwaitGetPage 2 ∧
             Job.status job' = processing) ∨
            (∃ out, Task.pc (m_task (step env_page1_fails (run env_page1_fails 9 run_42))) =
                      Settled (Ok out) ∧
                    1 = Task.totalPages (m_task (run env_page1_fails 9 run_42)) ∧
                    Job.status job' = completed ∧
                    Job.progress job' = Percent 100))) ∧
  (∃ steps job' out,
     Task.pc (m_task (run env_page1_fails steps (run env_page1_fails 8 run_42))) =
       Settled (Ok out) ∧
     m_jobs (run env_page1_fails steps (run env_page1_fails 8 run_42)) !!
       Task.jobId (m_task (run env_page1_fails 8 run_42)) = Some job' ∧
     Job.status job' = completed ∧
     Job.progress job' = Percent 100).
Proof.
  split.
  - apply (proj1 page_failure_tolerated env_page1_fails (run env_page1_fails 9 run_42)
                 1 "Invalid page content" job_42_page1).
    + vm_compute. reflexivity.
    + reflexivity.
    + vm_compute. reflexivity.
    + vm_compute. repeat split; lia.
  - apply (proj2 page_failure_tolerated env_page1_fails (run env_page1_fails 8 run_42)
                 1 job_42_page1).
    + vm_compute. reflexivity.
    + vm_compute. reflexivity.
    + exact job_inv_page1.
    + intros p. reflexivity.
Defined.


(** ** More about one step and the record of its job *)

Lemma snoc_not_nil {A} (l : list A) (x : A) : Some (l ++ [x]) ≠ Some [].
Proof. intros [= H]. by destruct l. Qed.

(** A step keeps the wider description of the record. *)
Lemma step_job_ext (e : Env) (m : Machine) (job : Job.t) :
  m_jobs m !! Task.jobId (m_task m) = Some job →
  job_inv job (m_task m) →
  job_ext job (m_task m) →
  ∃ job', m_jobs (step e m) !! Task.jobId (m_task m) = Some job' ∧
          job_ext job' (m_task (step e m)) ∧
          Job.startTime job' = Job.startTime job.
Proof.
  destruct m as [jobs fs0 [pdfPath dirId jid pc tp o c] tr]. cbn.
  intros Hjob [Hle Hinv] (Hid & Hdir & Hpath & Herrs & Hext). cbn in Hinv, Hext, Hid, Hdir, Hpath.
  destruct job; cbn in *.
  destruct pc; unfold step; cbn; destruct_and?; subst; rewrite ?Hjob;
    repeat case_match; unfold_machine; cbn;
    repeat case_match; cbn;
    rewrite ?lookup_alter_eq, ?Hjob; cbn;
    try (eexists; split; [reflexivity|]; unfold job_ext, progress_of, error_count in *; cbn in *;
         rewrite ?length_app in *; cbn in *; leb_to_prop;
         repeat split; eauto using snoc_not_nil; try done; try lia).
  all: try congruence.
  all: destruct_and?; subst; repeat split; done.
Qed.

(** ** The server keeps the wider invariant *)

Lemma server_ext_initial (fs0 : filesys) : server_ext (initial fs0).
Proof. intros i k job Hk. cbn in Hk. by rewrite lookup_empty in Hk. Qed.

Lemma server_ext_step (l : label) (s : State) :
  server_inv s → server_ext s → server_ext (server_step l s).
Proof.
  intros [Htasks Hjobs] Hext. destruct l; cbn.
  - unfold upload.
    destruct (ensureDirectoriesExist (fs s)) as [[[]|msg] fs']; [|exact Hext].
    destruct (file_path req) as [pdfPath|]; [|exact Hext].
    intros i k job. cbn. destruct (decide (i = (jobCounter s + 1)%Z)) as [->|Hne].
    + rewrite !lookup_insert_eq. intros [= <-] [= <-]. by repeat split.
    + rewrite !lookup_insert_ne by done. apply Hext.
  - unfold get_job. by destruct (_ ≫= _).
  - unfold maintenance_cleanup.
    destruct (cleanupDirectories (fs s)) as [[[]|msg] fs']; exact Hext.
  - unfold advance. destruct (tasks s !! jobId) as [k|] eqn:Hk; [|exact Hext].
    destruct (Htasks _ _ Hk) as [Hid (job & Hjob & Hinv)].
    set (m := {| m_jobs := conversionJobs s; m_fs := fs s; m_task := k; m_trace := [] |}).
    destruct (step_job_ext e m job) as (job' & Hjob' & Hext' & _);
      cbn; [by rewrite Hid|done|by eapply Hext|].
    cbn in Hjob'. rewrite Hid in Hjob'.
    intros i k' j. cbn. destruct (decide (i = jobId)) as [->|Hne].
    + rewrite lookup_insert_eq, Hjob'. by intros [= <-] [= <-].
    + rewrite lookup_insert_ne by done.
      rewrite (step_jobs_other e m i) by (cbn; congruence). apply Hext.
  - exact Hext.
Qed.

Lemma reachable_ext (s : State) : reachable s → server_ext s.
Proof.
  induction 1 as [fs0|l s Hs IH]; [apply server_ext_initial|].
  apply server_ext_step; [by apply reachable_inv|done].
Qed.

(** A reachable state gives, for a record, its run and both descriptions. *)
Lemma reachable_job (s : State) (i : Z) (job : Job.t) :
  reachable s →
  conversionJobs s !! i = Some job →
  ∃ k, tasks s !! i = Some k ∧ Task.jobId k = i ∧ job_inv job k ∧ job_ext job k.
Proof.
  intros Hs Hjob. pose proof (reachable_ext s Hs) as Hext.
  apply reachable_inv in Hs as [Htasks Hjobs].
  destruct (Hjobs _ _ Hjob) as [_ [k Hk]].
  destruct (Htasks _ _ Hk) as [Hid (job0 & Hjob0 & Hinv)].
  assert (job0 = job) as -> by congruence.
  exists k. split; [done|]. split; [done|]. split; [done|]. by eapply Hext.
Qed.

(** What one server step does to the fields the upload handler wrote. *)
Lemma server_step_fields (l : label) (s : State) (i : Z) (job : Job.t) :
  server_inv s →
  server_ext s →
  conversionJobs s !! i = Some job →
  ∃ job', conversionJobs (server_step l s) !! i = Some job' ∧
          Job.id job' = Job.id job ∧
          Job.directoryId job' = Job.directoryId job ∧
          Job.pdfPath job' = Job.pdfPath job ∧
          Job.startTime job' = Job.startTime job.
Proof.
  intros [Htasks Hjobs] Hext Hjob.
  assert (∃ job', Some job = Some job' ∧ Job.id job' = Job.id job ∧
                  Job.directoryId job' = Job.directoryId job ∧
                  Job.pdfPath job' = Job.pdfPath job ∧
                  Job.startTime job' = Job.startTime job) as Hsame by (by exists job).
  destruct l; cbn.
  - unfold upload.
    destruct (ensureDirectoriesExist (fs s)) as [[[]|msg] fs']; cbn; [|by rewrite Hjob].
    destruct (file_path req) as [pdfPath|]; cbn; [|by rewrite Hjob].
    rewrite lookup_insert_ne; [by rewrite Hjob|].
    apply Hjobs in Hjob as [Hle _]. lia.
  - unfold get_job. destruct (_ ≫= _); cbn; by rewrite Hjob.
  - unfold maintenance_cleanup.
    destruct (cleanupDirectories (fs s)) as [[[]|msg] fs']; cbn; by rewrite Hjob.
  - unfold advance. destruct (tasks s !! jobId) as [k|] eqn:Hk; [|by rewrite Hjob].
    destruct (Htasks _ _ Hk) as [Hid (job0 & Hjob0 & Hinv)]. cbn.
    set (m := {| m_jobs := conversionJobs s; m_fs := fs s; m_task := k; m_trace := [] |}).
    destruct (decide (i = jobId)) as [->|Hne].
    + assert (job0 = job) as -> by congruence.
      pose proof (Hext _ _ _ Hk Hjob) as Hextj.
      destruct (step_job_ext e m job) as (job' & Hjob' & Hext' & Hstart);
        cbn; [by rewrite Hid|done|done|].
      cbn in Hjob'. rewrite Hid in Hjob'. exists job'. split; [done|].
      destruct (step_jobId e m) as (Hi & Hp & Hd). cbn in Hi, Hp, Hd.
      destruct Hext' as (Hid' & Hdir' & Hpath' & _).
      destruct Hextj as (Hid0 & Hdir0 & Hpath0 & _).
      repeat split; congruence.
    + rewrite (step_jobs_other e m i) by (cbn; congruence). cbn. by rewrite Hjob.
  - by rewrite Hjob.
Qed.

(** ** More invariants of the job record *)

(** X1. In every reachable state the [id] of a record is the key it is
    stored under, and whatever happens next the record is still there with
    the same [id], [directoryId], [pdfPath] and [startTime]. *)
Theorem record_identity (s : State) (l : label) (i : Z) (job : Job.t) :
  reachable s →
  conversionJobs s !! i = Some job →
  Job.id job = i ∧
  ∃ job', conversionJobs (server_step l s) !! i = Some job' ∧
          Job.id job' = Job.id job ∧
          Job.directoryId job' = Job.directoryId job ∧
          Job.pdfPath job' = Job.pdfPath job ∧
          Job.startTime job' = Job.startTime job.
Proof.
  intros Hs Hjob. split.
  - destruct (reachable_job s i job Hs Hjob) as (k & _ & Hid & _ & Hext).
    destruct Hext as (Hjid & _). congruence.
  - apply server_step_fields; [by apply reachable_inv|by apply reachable_ext|done].
Qed.

(** X2. In every reachable state a record has an [endTime] exactly when
    its status is completed or failed, an [error] exactly when it is failed,
    a [compressionRatio] exactly when it is completed, and its [errors], when
    present, is not the empty array. *)
Theorem outcome_fields (s : State) (i : Z) (job : Job.t) :
  reachable s →
  conversionJobs s !! i = Some job →
  (is_Some (Job.endTime job) ↔ terminal (Job.status job) = true) ∧
  (is_Some (Job.error job) ↔ Job.status job = failed) ∧
  (is_Some (Job.compressionRatio job) ↔ Job.status job = completed) ∧
  Job.errors job ≠ Some [].
Proof.
  intros Hs Hjob.
  destruct (reachable_job s i job Hs Hjob) as (k & _ & _ & [_ Hinv] & Hext).
  destruct Hext as (_ & _ & _ & Herrs & Hext).
  destruct (Task.pc k) as [| | | | | | | | | | | |[out|msg]]; destruct_and?;
    repeat match goal with
           | H : Job.status job = _ |- _ => rewrite H; clear H
           | H : Job.endTime job = _ |- _ => rewrite H; clear H
           | H : Job.error job = _ |- _ => rewrite H; clear H
           | H : Job.compressionRatio job = _ |- _ => rewrite H; clear H
           end; cbn;
    repeat split; try done; intros; try discriminate;
    repeat match goal with H : is_Some None |- _ => destruct H as [? ?] end;
    try discriminate; eauto.
Qed.

(** X3. In every reachable state, when the run of a job has thrown, the
    [error] of its record is the message that was thrown and the record is
    failed. *)
Theorem error_is_thrown_message (s : State) (i : Z) (k : Task.t) (job : Job.t)
    (message : string) :
  reachable s →
  tasks s !! i = Some k →
  conversionJobs s !! i = Some job →
  Task.pc k = Settled (Throw message) →
  Job.error job = Some message ∧ Job.status job = failed.
Proof.
  intros Hs Hk Hjob Hpc.
  destruct (reachable_job s i job Hs Hjob) as (k' & Hk' & _ & [_ Hinv] & Hext).
  assert (k' = k) as -> by congruence.
  destruct Hext as (_ & _ & _ & _ & Hext). rewrite Hpc in Hinv, Hext.
  by destruct Hinv, Hext as (_ & ? & _).
Qed.

(** X4. In every reachable state the [progress] of a completed record is
    100, and the [progress] of any other record is 0 while no page is
    processed and [Math.floor((processedPages / totalPages) * 100)]
    afterwards. *)
Theorem progress_follows_pages (s : State) (i : Z) (job : Job.t) :
  reachable s →
  conversionJobs s !! i = Some job →
  Job.progress job =
    match Job.status job with
    | completed => Percent 100
    | _ => progress_of job
    end.
Proof.
  intros Hs Hjob.
  destruct (reachable_job s i job Hs Hjob) as (k & _ & _ & [_ Hinv] & Hext).
  destruct Hext as (_ & _ & _ & _ & Hext). unfold progress_of in *.
  destruct (Task.pc k) as [| | | | | | | | | | | |[out|msg]]; destruct_and?;
    repeat match goal with
           | H : Job.status job = _ |- _ => rewrite H; clear H
           | H : Job.processedPages job = 0 |- _ => rewrite H; clear H
           end; done.
Qed.

(** X5. In every reachable state a completed record accounts for every
    page: [totalPages] is at most [processedPages] plus the number of
    [errors], and there are at most [totalPages] errors.  While the loop is
    at page [n] ([currentPage] is [n]), the pages before [n] are accounted
    for in the same way. *)
Theorem pages_accounted (s : State) (i : Z) (job : Job.t) :
  reachable s →
  conversionJobs s !! i = Some job →
  (Job.status job = completed →
   Job.totalPages job ≤ Job.processedPages job + error_count job ∧
   error_count job ≤ Job.totalPages job) ∧
  (∀ n, Job.status job = processing → Job.currentPage job = Some n →
        1 ≤ n ∧ n ≤ Job.totalPages job ∧
        n - 1 ≤ Job.processedPages job + error_count job ∧
        error_count job ≤ n - 1).
Proof.
  intros Hs Hjob.
  destruct (reachable_job s i job Hs Hjob) as (k & _ & _ & [_ Hinv] & Hext).
  destruct Hext as (_ & _ & _ & _ & Hext).
  destruct (Task.pc k) as [| | | | | | | | | | | |[out|msg]]; destruct_and?;
    (split; [intros Hst|intros n Hst Hcur]); try congruence;
    try (assert (n = pageNum) as -> by congruence); repeat split; lia.
Qed.

(** ** The tracker *)

(** A step of a run neither adds nor removes a record. *)
Lemma step_jobs_dom (e : Env) (m : Machine) : dom (m_jobs (step e m)) = dom (m_jobs m).
Proof.
  destruct m as [jobs fs0 [pdfPath dirId jid pc tp o c] tr]. cbn.
  step_cases pc; rewrite ?dom_alter_L; done.
Qed.

Lemma server_step_dense (l : label) (s : State) :
  server_inv s →
  (0 ≤ jobCounter s)%Z ∧
  dom (conversionJobs s) = list_to_set (Z.of_nat <$> seq 1 (Z.to_nat (jobCounter s))) →
  (0 ≤ jobCounter (server_step l s))%Z ∧
  dom (conversionJobs (server_step l s)) =
    list_to_set (Z.of_nat <$> seq 1 (Z.to_nat (jobCounter (server_step l s)))).
Proof.
  intros [Htasks Hjobs] [Hpos Hdom]. destruct l; cbn.
  - unfold upload.
    destruct (ensureDirectoriesExist (fs s)) as [[[]|msg] fs']; cbn; [|done].
    destruct (file_path req) as [pdfPath|]; cbn; [|done].
    split; [lia|]. rewrite dom_insert_L, Hdom.
    replace (Z.to_nat (jobCounter s + 1)) with (Z.to_nat (jobCounter s) + 1) by lia.
    rewrite seq_app, fmap_app, list_to_set_app_L. cbn.
    replace (Z.of_nat (S (Z.to_nat (jobCounter s)))) with (jobCounter s + 1)%Z by lia.
    rewrite union_empty_r_L. apply (comm_L (∪)).
  - unfold get_job. by destruct (_ ≫= _).
  - unfold maintenance_cleanup. by destruct (cleanupDirectories (fs s)) as [[[]|msg] fs'].
  - unfold advance. destruct (tasks s !! jobId) as [k|]; [|done]. cbn.
    split; [done|]. by rewrite step_jobs_dom.
  - done.
Qed.

(** X6. In every reachable state the tracker holds exactly the ids 1 to
    [jobCounter]: records are never removed, finished or not, so
    [activeJobs] of the health endpoint is the number of uploads accepted so
    far; and the health endpoint changes nothing. *)
Theorem tracker_ids_dense (s : State) (uptime : Q) :
  reachable s →
  (∀ i, is_Some (conversionJobs s !! i) ↔ (1 ≤ i ≤ jobCounter s)%Z) ∧
  h_activeJobs (health uptime s).1.2 = Z.to_nat (jobCounter s) ∧
  (health uptime s).2 = s.
Proof.
  intros Hs.
  assert ((0 ≤ jobCounter s)%Z ∧
          dom (conversionJobs s) =
            list_to_set (Z.of_nat <$> seq 1 (Z.to_nat (jobCounter s)))) as [Hpos Hdom].
  { induction Hs as [fs0|l s Hs IH]; [done|].
    apply server_step_dense; [by apply reachable_inv|done]. }
  split; [|split; [|done]].
  - intros i. rewrite <- elem_of_dom, Hdom, elem_of_list_to_set, list_elem_of_fmap.
    split.
    + intros (n & -> & Hn). apply elem_of_seq in Hn. lia.
    + intros Hi. exists (Z.to_nat i). split; [lia|]. apply elem_of_seq. lia.
  - cbn. rewrite <- size_dom, Hdom, size_list_to_set.
    + by rewrite length_fmap, length_seq.
    + apply NoDup_fmap; [apply _|apply NoDup_seq].
Qed.

(** ** The upload endpoint *)

(** X7. An upload that is not answered 200 creates nothing: the tracker,
    the counter and the scheduled runs are as before, and every status poll
    is answered as before.  Without a file the answer is never 200. *)
Theorem upload_rejected_creates_nothing (req : UploadReq) (dateNow newDate : Time)
    (s : State) :
  let r := upload req dateNow newDate s in
  (file_path req = None → code r.1 = 400 ∨ code r.1 = 500) ∧
  (code r.1 ≠ 200 →
   conversionJobs r.2 = conversionJobs s ∧
   jobCounter r.2 = jobCounter s ∧
   tasks r.2 = tasks s ∧
   ∀ jobId, (get_job jobId r.2).1 = (get_job jobId s).1).
Proof.
  cbn zeta. unfold upload.
  destruct (ensureDirectoriesExist (fs s)) as [[[]|msg] fs']; cbn.
  - destruct (file_path req) as [pdfPath|]; cbn.
    + split; [discriminate|]. intros Hne. exfalso. by apply Hne.
    + split; [by left|]. intros _. repeat split.
      intros jobId. unfold get_job. cbn. by destruct (_ ≫= _).
  - split; [by right|]. intros _. repeat split.
    intros jobId. unfold get_job. cbn. by destruct (_ ≫= _).
Qed.

(** X8. In every reachable state, an upload answered 200 returns as
    [jobId] an id no status poll knew before (404) and every poll knows
    afterwards (200), with the record pending, [progress] 0,
    [processedPages] 0 and [totalPages] 0, under the [directoryId] of the
    form when it is a non-empty string and under [Date.now()] otherwise; and
    a run of the pipeline is scheduled for exactly that record. *)
Theorem upload_then_poll (req : UploadReq) (dateNow newDate : Time) (s : State) :
  reachable s →
  let r := upload req dateNow newDate s in
  code r.1 = 200 →
  ∃ jobId pdfPath,
    file_path req = Some pdfPath ∧
    body_get "jobId" (body r.1) = VNum jobId ∧
    jobId = (jobCounter s + 1)%Z ∧
    code (get_job (Some jobId) s).1 = 404 ∧
    code (get_job (Some jobId) r.2).1 = 200 ∧
    body_get "id" (body (get_job (Some jobId) r.2).1) = VNum jobId ∧
    body_get "status" (body (get_job (Some jobId) r.2).1) = VStr "pending" ∧
    body_get "progress" (body (get_job (Some jobId) r.2).1) = VProgress (Percent 0) ∧
    body_get "processedPages" (body (get_job (Some jobId) r.2).1) = VNum 0 ∧
    body_get "totalPages" (body (get_job (Some jobId) r.2).1) = VNum 0 ∧
    body_get "directoryId" (body (get_job (Some jobId) r.2).1) =
      body_get "directoryId" (body r.1) ∧
    body_get "directoryId" (body r.1) =
      match body_directoryId req with
      | Some (String c d) => VStr (String c d)
      | _ => VNum (Z.of_N dateNow)
      end ∧
    tasks r.2 !! jobId = Some (Task.start pdfPath
      match body_directoryId req with
      | Some (String c d) => IdStr (String c d)
      | _ => IdNum dateNow
      end jobId).
Proof.
  intros Hs. apply reachable_inv in Hs as [Htasks Hjobs]. cbn zeta. unfold upload.
  destruct (ensureDirectoriesExist (fs s)) as [[[]|msg] fs']; cbn; [|discriminate].
  destruct (file_path req) as [pdfPath|]; cbn; [|discriminate].
  intros _. exists (jobCounter s + 1)%Z, pdfPath.
  assert (conversionJobs s !! (jobCounter s + 1)%Z = None) as Hfresh.
  { destruct (conversionJobs s !! (jobCounter s + 1)%Z) as [job|] eqn:Hj; [|done].
    apply Hjobs in Hj as [Hle _]. lia. }
  unfold get_job. cbn. rewrite Hfresh, !lookup_insert_eq. cbn.
  repeat split; try done; by destruct (body_directoryId req) as [[|c d]|].
Qed.

(** ** What a run leaves alone *)


Lemma mkdir_from_long (pre rest : path) (m m' : gmap path node) (p : path) :
  mkdir_from pre rest m = Ok m' → length pre + length rest < length p → m' !! p = m !! p.
Proof.
  revert pre m. induction rest as [|c rest IH]; intros pre m Hmk Hlen; cbn in Hmk, Hlen.
  - by injection Hmk as <-.
  - destruct (m !! (pre ++ [c])) as [[d|]|] eqn:Hc; [discriminate| |].
    + eapply IH; [exact Hmk|]. rewrite length_app. cbn. lia.
    + erewrite IH; [|exact Hmk|rewrite length_app; cbn; lia].
      rewrite lookup_insert_ne; [done|]. intros <-. rewrite length_app in Hlen. cbn in Hlen. lia.
Qed.

Lemma fs_mkdir_Ok (fs fs' : filesys) (p : path) :
  fs_mkdir fs p = Ok fs' →
  mkdir_from [] p (nodes fs) = Ok (nodes fs') ∧ locked fs' = locked fs.
Proof.
  unfold fs_mkdir, bind. destruct (mkdir_from [] p (nodes fs)); [|discriminate].
  by intros [= <-].
Qed.

Lemma fs_writeFile_Ok (fs fs' : filesys) (p : path) (data : bytes) :
  fs_writeFile fs p data = Ok fs' →
  nodes fs' = <[p := File data]> (nodes fs) ∧ locked fs' = locked fs.
Proof.
  unfold fs_writeFile. repeat case_match; try discriminate; by intros [= <-].
Qed.




(** ** Every run settles *)

Lemma settles_now (e : Env) (m : Machine) :
  is_settled (Task.pc (m_task m)) = true → settles e m.
Proof. intros H. by exists 0. Qed.

Lemma settles_step (e : Env) (m : Machine) : settles e (step e m) → settles e m.
Proof. intros [n Hn]. by exists (S n). Qed.

Lemma settles_run (e : Env) (k : nat) (m : Machine) : settles e (run e k m) → settles e m.
Proof. intros [n Hn]. exists (k + n). by rewrite run_add. Qed.

Lemma settles_loop (e : Env) (d : nat) (m : Machine) (pageNum : nat) :
  S (Task.totalPages (m_task m)) - pageNum ≤ d → settles e (loop_head e pageNum m).
Proof.
  revert m pageNum. induction d as [|d IH]; intros m pageNum Hd.
  - apply settles_now. unfold loop_head. by rewrite (proj2 (Nat.leb_gt _ _)) by lia.
  - destruct (decide (pageNum ≤ Task.totalPages (m_task m))) as [Hle|Hgt].
    + set (m1 := loop_head e pageNum m).
      assert (Task.pc (m_task m1) = AwaitGetPage pageNum ∧
              Task.totalPages (m_task m1) = Task.totalPages (m_task m)) as [Hpc Htp].
      { unfold m1, loop_head. rewrite (proj2 (Nat.leb_le _ _)) by lia. by split. }
      destruct (getPage e pageNum) as [[]|msg] eqn:Hget.
      * destruct (page_iteration e m1 pageNum Hpc Hget) as (k & m2 & _ & Hrun & Htp2).
        apply (settles_run e k). rewrite Hrun. apply IH. lia.
      * apply settles_step, settles_now. clearbody m1.
        destruct m1 as [jobs fs0 [pdfPath dirId jid pc tp o c] tr]. cbn in Hpc. subst pc.
        unfold step. cbn. by rewrite Hget.
    + apply settles_now. unfold loop_head. by rewrite (proj2 (Nat.leb_gt _ _)) by lia.
Qed.

Ltac settles_next :=
  apply settles_step; unfold step; cbn; repeat case_match;
  try (by apply settles_now).

Lemma settles_mkdir (e : Env) (m : Machine) :
  Task.pc (m_task m) = AwaitMkdir → settles e m.
Proof.
  destruct m as [jobs fs0 [pdfPath dirId jid pc tp o c] tr]. cbn. intros ->.
  settles_next. by eapply settles_loop.
Qed.

Lemma settles_getDocument (e : Env) (m : Machine) (data : bytes) :
  Task.pc (m_task m) = AwaitGetDocument data → settles e m.
Proof.
  destruct m as [jobs fs0 [pdfPath dirId jid pc tp o c] tr]. cbn. intros ->.
  settles_next. by apply settles_mkdir.
Qed.

Lemma settles_readFile (e : Env) (m : Machine) :
  Task.pc (m_task m) = AwaitReadFile → settles e m.
Proof.
  destruct m as [jobs fs0 [pdfPath dirId jid pc tp o c] tr]. cbn. intros ->.
  settles_next. by eapply settles_getDocument.
Qed.

Lemma settles_access (e : Env) (m : Machine) :
  Task.pc (m_task m) = AwaitAccess → settles e m.
Proof.
  destruct m as [jobs fs0 [pdfPath dirId jid pc tp o c] tr]. cbn. intros ->.
  settles_next. by apply settles_readFile.
Qed.

Lemma settles_unlink_next (e : Env) (files : list string) (m : Machine) :
  settles e (unlink_next files m).
Proof.
  revert m. induction files as [|file rest IH]; intros m; cbn.
  - by apply settles_access.
  - destruct m as [jobs fs0 [pdfPath dirId jid pc tp o c] tr].
    settles_next. apply IH.
Qed.

Lemma settles_cleanReaddir (e : Env) (m : Machine) :
  Task.pc (m_task m) = AwaitCleanReaddir → settles e m.
Proof.
  destruct m as [jobs fs0 [pdfPath dirId jid pc tp o c] tr]. cbn. intros ->.
  settles_next. apply settles_unlink_next.
Qed.

Lemma settles_cleanAccess (e : Env) (m : Machine) :
  Task.pc (m_task m) = AwaitCleanAccess → settles e m.
Proof.
  destruct m as [jobs fs0 [pdfPath dirId jid pc tp o c] tr]. cbn. intros ->.
  settles_next; [by apply settles_cleanReaddir|by apply settles_access].
Qed.

(** X10. Every run of the pipeline comes to an end, whatever the disk
    holds and whatever the libraries answer: after finitely many steps it
    has returned or thrown, and the record it was started on is then
    completed or failed. *)
Theorem run_settles (e : Env) (m : Machine) :
  fresh m →
  ∃ n job, is_settled (Task.pc (m_task (run e n m))) = true ∧
           m_jobs (run e n m) !! Task.jobId (m_task m) = Some job ∧
           terminal (Job.status job) = true.
Proof.
  intros (Hpc & _ & job0 & Hjob0 & Hinv0).
  assert (settles e m) as [n Hn].
  { destruct m as [jobs fs0 [pdfPath dirId jid pc tp o c] tr]. cbn in *. subst pc.
    settles_next. by apply settles_cleanAccess. }
  destruct (run_job_inv e n m job0 Hjob0 Hinv0) as (job & Hjob & _ & Hinv).
  exists n, job. split; [done|]. split; [done|].
  destruct (Task.pc (m_task (run e n m))) as [| | | | | | | | | | | |[out|msg]];
    try discriminate; destruct Hinv as [-> _]; done.
Qed.

(** ** What the output directory holds *)

Lemma length_append (s t : string) :
  String.length (s +:+ t) = String.length s + String.length t.
Proof.
  induction s as [|a s IH]; [reflexivity|].
  change (String a s +:+ t) with (String a (s +:+ t)). cbn. by rewrite IH.
Qed.

Lemma append_inj_l (s1 s2 t : string) : s1 +:+ t = s2 +:+ t → s1 = s2.
Proof.
  revert s2. induction s1 as [|a s1 IH]; intros [|b s2] H.
  - done.
  - apply (f_equal String.length) in H. rewrite !length_append in H. cbn in H. lia.
  - apply (f_equal String.length) in H. rewrite !length_append in H. cbn in H. lia.
  - change (String a (s1 +:+ t) = String b (s2 +:+ t)) in H. injection H as -> H.
    f_equal. by apply IH.
Qed.

Lemma to_uint_nonnil (n : nat) : Nat.to_uint n ≠ Decimal.Nil.
Proof.
  intros H. pose proof (DecimalNat.Unsigned.of_to n) as Hn. rewrite H in Hn.
  cbn in Hn. subst n. vm_compute in H. discriminate.
Qed.

Lemma dec_inj (a b : nat) : dec a = dec b → a = b.
Proof.
  unfold dec. intros H. apply DecimalNat.Unsigned.to_uint_inj.
  assert (Some (Nat.to_uint a) = Some (Nat.to_uint b)) as Heq; [|by injection Heq].
  rewrite <- !NilZero.usu by apply to_uint_nonnil. by rewrite H.
Qed.

Lemma page_file_inj (a b : nat) : page_file a = page_file b → a = b.
Proof. unfold page_file. intros H. by apply dec_inj, (append_inj_l _ _ ("." +:+ format)). Qed.

Lemma children_same (fs fs' : filesys) (dir : path) :
  (∀ c, nodes fs' !! (dir ++ [c]) = nodes fs !! (dir ++ [c])) →
  children fs' dir ≡ₚ children fs dir.
Proof.
  intros H. apply NoDup_Permutation; [apply NoDup_children..|].
  intros c. by rewrite !elem_of_children, H.
Qed.

Lemma children_insert_new (fs fs' : filesys) (dir : path) (c : string) (x : node) :
  nodes fs' = <[dir ++ [c] := x]> (nodes fs) →
  nodes fs !! (dir ++ [c]) = None →
  children fs' dir ≡ₚ c :: children fs dir.
Proof.
  intros Hn Hnone. apply NoDup_Permutation; [apply NoDup_children| |].
  - apply NoDup_cons. split; [|apply NoDup_children].
    rewrite elem_of_children, Hnone. by intros [? ?].
  - intros a. rewrite elem_of_cons, !elem_of_children, Hn, lookup_insert_is_Some. split.
    + intros [Heq|[_ Ha]]; [left|by right]. by simplify_list_eq.
    + intros [->|Ha]; [by left|].
      destruct (decide (c = a)) as [->|Hne]; [by left|].
      right. split; [|done]. intros Heq. by simplify_list_eq.
Qed.

Lemma children_mkdir (fs fs' : filesys) (dir : path) :
  fs_mkdir fs dir = Ok fs' → children fs dir = [] → children fs' dir = [].
Proof.
  intros Hmk Hnil. apply fs_mkdir_Ok in Hmk as [Hmk _].
  apply Permutation_nil_r. rewrite <- Hnil. apply children_same.
  intros c. eapply mkdir_from_long; [exact Hmk|]. rewrite length_app. cbn. lia.
Qed.

Lemma children_write (fs fs' : filesys) (d : DirId) (n : nat) (data : bytes) :
  fs_writeFile fs (imagePath d n) data = Ok fs' →
  Forall (λ c, ∃ j, 1 ≤ j ∧ j < n ∧ c = page_file j) (children fs (pdfOutputDir d)) →
  children fs' (pdfOutputDir d) ≡ₚ page_file n :: children fs (pdfOutputDir d).
Proof.
  intros Hw Hall. apply fs_writeFile_Ok in Hw as [Hn _].
  apply (children_insert_new fs fs' _ _ (File data)); [exact Hn|].
  destruct (nodes fs !! (pdfOutputDir d ++ [page_file n])) as [x|] eqn:Hx; [|done].
  assert (page_file n ∈ children fs (pdfOutputDir d)) as Hin
    by (apply elem_of_children; eauto).
  rewrite Forall_forall in Hall. destruct (Hall _ Hin) as (j & _ & Hj & Heq).
  apply page_file_inj in Heq. lia.
Qed.

(** A step keeps the description of the output directory. *)
Lemma step_out_inv (e : Env) (m : Machine) (job : Job.t) :
  pipeline_inv e m →
  m_jobs m !! Task.jobId (m_task m) = Some job →
  job_inv job (m_task m) →
  out_inv m →
  out_inv (step e m).
Proof.
  intros Hpipe Hjob [Hle Hinv] Hout. remember (step e m) as m' eqn:Hm'.
  destruct m as [jobs fs0 [pdfPath dirId jid pc tp o c] tr].
  unfold pipeline_inv in Hpipe. unfold out_inv in Hout. cbn in Hpipe, Hjob, Hinv, Hout.
  destruct Hpipe as (_ & _ & _ & _ & Hpc).
  destruct job; cbn in *.
  destruct pc; unfold step in Hm'; cbn in Hm'; rewrite ?Hjob in Hm';
    repeat case_match; unfold_machine; cbn in Hm';
    repeat case_match; subst m'; unfold out_inv; cbn; try done.
  all: leb_to_prop; destruct_and?; subst; try done.
  all: try (destruct Hout as (job0 & Hjob0 & Hlen & Hall); rewrite Hjob in Hjob0;
            injection Hjob0 as <-; cbn in Hlen).
  all: rewrite ?lookup_alter_eq, ?Hjob; cbn.
  all: try match goal with |- _ = _ ∧ _ => split; [reflexivity|] end.
  all: try (eexists; split; [reflexivity|]; cbn; split; [done|];
            eapply Forall_impl; [exact Hall|]; cbn; intros ? (j & ? & ? & ->);
            exists j; repeat split; lia).
  all: try match goal with
           | H : fs_mkdir _ _ = Ok _ |- _ =>
               eapply children_mkdir in H; [|eassumption]; rewrite H;
               eexists; split; [reflexivity|]; by repeat constructor
           end.
  all: match goal with
       | H : fs_writeFile _ _ _ = Ok _ |- _ =>
           eapply children_write in H; [|eassumption];
           eexists; split; [reflexivity|]; cbn; split;
           [rewrite H; cbn; by rewrite Hlen|];
           rewrite H; constructor;
           [eexists; split; [eassumption|split; [lia|reflexivity]]
           |eapply Forall_impl; [exact Hall|]; cbn; intros ? (j & ? & ? & ->);
            exists j; repeat split; lia]
       end.
Qed.

Lemma run_out_inv (e : Env) (n : nat) (m : Machine) (job : Job.t) :
  pipeline_inv e m →
  m_jobs m !! Task.jobId (m_task m) = Some job →
  job_inv job (m_task m) →
  out_inv m →
  out_inv (run e n m).
Proof.
  revert m job. induction n as [|n IH]; intros m job Hpipe Hjob Hinv Hout; cbn; [done|].
  destruct (step_job_inv e m job Hjob Hinv) as (job1 & Hjob1 & Hinv1 & _).
  destruct (step_jobId e m) as (Hid & _).
  apply (IH _ job1); [by apply step_pipeline_inv|by rewrite Hid|done|].
  by eapply step_out_inv.
Qed.

(** X11. When a run started on a well-formed disk returns, with nothing
    else touching the disk in between, the output directory of its directory
    identifier holds exactly as many entries as [processedPages] counts, each
    named [<n>.<format>] for a page number [n] from 1 to [totalPages]: one
    image per processed page and nothing left from an earlier conversion. *)
Theorem output_directory_at_completion (e : Env) (n : nat) (m : Machine) (out : path) :
  fresh m →
  fs_wf (m_fs m) →
  Task.pc (m_task (run e n m)) = Settled (Ok out) →
  out = pdfOutputDir (Task.directoryId (m_task m)) ∧
  ∃ job, m_jobs (run e n m) !! Task.jobId (m_task m) = Some job ∧
         length (children (m_fs (run e n m)) out) = Job.processedPages job ∧
         Forall (λ c, ∃ j, 1 ≤ j ∧ j ≤ Job.totalPages job ∧ c = page_file j)
                (children (m_fs (run e n m)) out).
Proof.
  intros Hfresh Hwf Hpc.
  pose proof (fresh_pipeline_inv e m Hfresh Hwf) as Hpipe.
  destruct Hfresh as (Hstart & _ & job0 & Hjob0 & Hinv0).
  assert (out_inv m) as Hout0 by (unfold out_inv; by rewrite Hstart).
  pose proof (run_out_inv e n m job0 Hpipe Hjob0 Hinv0 Hout0) as Hout.
  destruct (run_job_inv e n m job0 Hjob0 Hinv0) as (job & Hjob & _ & Hinv).
  destruct (run_task_args e n m) as (Hid & _ & Hdir).
  unfold out_inv in Hout. rewrite Hpc, Hid, Hdir in Hout.
  destruct Hout as (-> & job' & Hjob' & Hlen & Hall).
  assert (job' = job) as -> by congruence.
  split; [done|]. by exists job.
Qed.

(** ** [cleanDirectoryImages] *)



Lemma unlink_steps (e : Env) (files : list string) (m : Machine) :
  let dir := pdfOutputDir (Task.directoryId (m_task m)) in
  ∃ n, n ≤ length files ∧
       m_fs (run e n (unlink_next files m)) = (unlink_each dir files (m_fs m)).2 ∧
       match (unlink_each dir files (m_fs m)).1 with
       | Ok _ =>
           Task.pc (m_task (run e n (unlink_next files m))) = AwaitAccess ∧
           m_jobs (run e n (unlink_next files m)) = m_jobs m
       | Throw message =>
           Task.pc (m_task (run e n (unlink_next files m))) = Settled (Throw message) ∧
           m_jobs (run e n (unlink_next files m)) =
             alter (λ job, Job.set_endTime (now e)
                             (Job.set_error message (Job.set_status failed job)))
                   (Task.jobId (m_task m)) (m_jobs m)
       end.
Proof.
  revert m. induction files as [|file rest IH]; intros m dir.
  - exists 0. by destruct m as [jobs fs0 [pdfPath dirId jid pc tp o c] tr].
  - destruct m as [jobs fs0 [pdfPath dirId jid pc tp o c] tr]. subst dir. cbn.
    unfold fs_bind, fs_write. cbn.
    destruct (fs_unlink fs0 (path_join (pdfOutputDir dirId) file)) as [fs1|msg] eqn:Hu.
    + destruct (IH {| m_jobs := jobs; m_fs := fs1;
                      m_task := Task.mk pdfPath dirId jid (AwaitCleanUnlink file rest) tp o c;
                      m_trace := tr ++ [EvCleanUnlink (path_join (pdfOutputDir dirId) file)] |})
        as (n & Hn & Hfs & Hres).
      exists (S n). cbn. rewrite Hu. cbn in Hfs, Hres.
      split; [lia|]. split; [exact Hfs|exact Hres].
    + exists 1. cbn. rewrite Hu. split; [lia|]. by split.
Qed.

(** X13. The steps a run takes through [cleanDirectoryImages] amount to
    the function run in one go: from its first [await], after at most two
    steps more than the directory has entries, the disk is the one
    [cleanDirectoryImages] leaves; when that returns, the run is about to
    check the source file and no record has changed; when that throws, the
    run has thrown the same message and marked its job failed with it. *)
Theorem clean_steps_agree (e : Env) (m : Machine) :
  Task.pc (m_task m) = AwaitCleanAccess →
  let d := Task.directoryId (m_task m) in
  let r := cleanDirectoryImages d (m_fs m) in
  ∃ n, n ≤ 2 + length (children (m_fs m) (pdfOutputDir d)) ∧
       m_fs (run e n m) = r.2 ∧
       match r.1 with
       | Ok _ =>
           Task.pc (m_task (run e n m)) = AwaitAccess ∧
           m_jobs (run e n m) = m_jobs m
       | Throw message =>
           Task.pc (m_task (run e n m)) = Settled (Throw message) ∧
           m_jobs (run e n m) =
             alter (λ job, Job.set_endTime (now e)
                             (Job.set_error message (Job.set_status failed job)))
                   (Task.jobId (m_task m)) (m_jobs m)
       end.
Proof.
  destruct m as [jobs fs0 [pdfPath dirId jid pc tp o c] tr]. cbn. intros ->.
  unfold cleanDirectoryImages, fs_try. fold (pdfOutputDir dirId).
  destruct (fs_access fs0 (pdfOutputDir dirId)) as [[]|msg0] eqn:Hacc.
  - unfold fs_bind, fs_read.
    destruct (fs_readdir fs0 (pdfOutputDir dirId)) as [files|msg] eqn:Hread.
    + pose proof (readdir_children _ _ _ Hread) as Hfiles.
      destruct (unlink_steps e files
                  {| m_jobs := jobs; m_fs := fs0;
                     m_task := Task.mk pdfPath dirId jid AwaitCleanReaddir tp o c;
                     m_trace := (tr ++ [EvCleanAccess (pdfOutputDir dirId)]) ++
                                [EvCleanReaddir (pdfOutputDir dirId)] |})
        as (n & Hn & Hfs & Hres).
      cbn in Hfs, Hres. exists (S (S n)). cbn. rewrite Hacc. cbn.
      rewrite Hread. split; [rewrite <- Hfiles; lia|].
      destruct (unlink_each (pdfOutputDir dirId) files fs0) as [[[]|msg] fs']; cbn in *;
        split; [exact Hfs|exact Hres|exact Hfs|exact Hres].
    + exists 2. cbn. rewrite Hacc. cbn. rewrite Hread. split; [lia|]. by split.
  - exists 1. cbn. rewrite Hacc. split; [lia|]. by split.
Qed.

(** ** Directories at start-up *)

Lemma cleanupDirectories_keeps (fs : filesys) :
  (cleanupDirectories fs).1 = Ok tt ∧
  ∀ p, nodes (cleanupDirectories fs).2 !! p = nodes fs !! p ∨
       (nodes (cleanupDirectories fs).2 !! p = None ∧
        ∃ f data, p = path_join config.inputDir f ∧ nodes fs !! p = Some (File data)).
Proof.
  unfold cleanupDirectories, fs_try, fs_bind, fs_read, fs_readdir.
  destruct (nodes fs !! config.inputDir) as [[d|]|]; cbn; try (split; [done|by left]).
  pose proof (unlink_each_spec config.inputDir (children fs config.inputDir) fs) as Hspec.
  destruct (unlink_each config.inputDir (children fs config.inputDir) fs) as [[[]|msg] fs'];
    cbn; destruct Hspec as (_ & Hkeep & _); (split; [done|]);
    intros p; (destruct (Hkeep p) as [?|[? (f & data & _ & ? & ?)]]; [by left|]);
    right; (split; [done|]); by exists f, data.
Qed.

Lemma ensureDirectoriesExist_facts (fs : filesys) :
  let r := ensureDirectoriesExist fs in
  (r.1 = Ok tt ↔
     (∀ data, nodes fs !! config.inputDir ≠ Some (File data)) ∧
     (∀ data, nodes fs !! config.outputDir ≠ Some (File data))) ∧
  (r.1 = Ok tt →
     nodes r.2 !! config.inputDir = Some Dir ∧
     nodes r.2 !! config.outputDir = Some Dir ∧
     ensureDirectoriesExist r.2 = (Ok tt, r.2)) ∧
  (∀ p x, nodes fs !! p = Some x → nodes r.2 !! p = Some x) ∧
  (∀ p, p ≠ config.inputDir → p ≠ config.outputDir → nodes r.2 !! p = nodes fs !! p).
Proof.
  destruct fs as [nd lk].
  cbn zeta. unfold ensureDirectoriesExist, fs_try, fs_bind, fs_write, fs_mkdir, bind, set_nodes.
  change config.inputDir with ["pdfs"]. change config.outputDir with ["images"]. cbn.
  destruct (nd !! ["pdfs"]) as [[d1|]|] eqn:Hin; cbn;
    rewrite ?lookup_insert_ne by done;
    destruct (nd !! ["images"]) as [[d2|]|] eqn:Hout; cbn;
    rewrite ?lookup_insert_eq, ?Hin, ?Hout; cbn;
    rewrite ?lookup_insert_ne by done; rewrite ?lookup_insert_eq, ?Hin, ?Hout; cbn.
  all: split;
    [split;
     [intros Hok; first [discriminate Hok|split; intros data; discriminate]
     |intros [H1 H2]; first [reflexivity|exfalso; first [by eapply H1|by eapply H2]]]|].
  all: split;
    [intros Hok; first [discriminate Hok|
       split; [done|]; split; [done|];
       rewrite ?lookup_insert_eq; cbn; done]|].
  all: split; [intros p x Hp|intros p Hp1 Hp2]; rewrite ?lookup_insert_ne by congruence; done.
Qed.

(** X14. [ensureDirectoriesExist] returns exactly when neither [pdfs] nor
    [images] is a file; both are directories afterwards and a second call
    returns without changing anything; in every case no entry that was on
    the disk is changed or removed, and nothing but those two directories is
    created. *)
Theorem ensureDirectoriesExist_spec (fs : filesys) :
  let r := ensureDirectoriesExist fs in
  (r.1 = Ok tt ↔
     (∀ data, nodes fs !! config.inputDir ≠ Some (File data)) ∧
     (∀ data, nodes fs !! config.outputDir ≠ Some (File data))) ∧
  (r.1 = Ok tt →
     nodes r.2 !! config.inputDir = Some Dir ∧
     nodes r.2 !! config.outputDir = Some Dir ∧
     ensureDirectoriesExist r.2 = (Ok tt, r.2)) ∧
  (∀ p x, nodes fs !! p = Some x → nodes r.2 !! p = Some x) ∧
  (∀ p, p ≠ config.inputDir → p ≠ config.outputDir → nodes r.2 !! p = nodes fs !! p).
Proof. apply ensureDirectoriesExist_facts. Qed.

(** X15. The callback of [app.listen] exits with code 1 exactly when
    [ensureDirectoriesExist] throws; a cleanup that fails never stops the
    server.  When the server listens, [pdfs] and [images] are directories;
    and in every case nothing at or below [images] is removed or changed. *)
Theorem startup_spec (fs0 : filesys) :
  let r := startup fs0 in
  (r.1 = Listening ↔ (ensureDirectoriesExist fs0).1 = Ok tt) ∧
  (r.1 = Listening ∨ r.1 = Exited 1) ∧
  (r.1 = Listening →
     nodes r.2 !! config.inputDir = Some Dir ∧ nodes r.2 !! config.outputDir = Some Dir) ∧
  (∀ rest x, nodes fs0 !! (config.outputDir ++ rest) = Some x →
             nodes r.2 !! (config.outputDir ++ rest) = Some x).
Proof.
  cbn zeta. unfold startup, fs_bind.
  pose proof (ensureDirectoriesExist_facts fs0) as (_ & Hdirs & Hkeep & _). cbn zeta in *.
  destruct (ensureDirectoriesExist fs0) as [[[]|msg] fs1]; cbn in *.
  - destruct (cleanupDirectories_keeps fs1) as [Hok Hclean].
    destruct (cleanupDirectories fs1) as [r fs2]. cbn in *. subst r. cbn.
    destruct (Hdirs eq_refl) as (Hin & Hout & _).
    assert (∀ rest, nodes fs2 !! (config.outputDir ++ rest) =
                    nodes fs1 !! (config.outputDir ++ rest)) as Hsame.
    { intros rest. destruct (Hclean (config.outputDir ++ rest))
        as [?|[_ (f & data & Heq & _)]]; [done|discriminate]. }
    split; [done|]. split; [by left|]. split.
    + intros _. split.
      * destruct (Hclean config.inputDir) as [->|[_ (f & data & Heq & _)]]; [done|discriminate].
      * etrans; [exact (Hsame [])|exact Hout].
    + intros rest x Hx. etrans; [exact (Hsame rest)|]. exact (Hkeep _ _ Hx).
  - split; [done|]. split; [by right|]. split; [done|]. intros rest x Hx. exact (Hkeep _ _ Hx).
Qed.

(** ** The batch script *)

(** X16. [getAllPDFFiles] of the batch script leaves the disk as it is;
    it throws exactly when the input directory is not a directory, and
    otherwise returns, without repetition, the paths [pdfs/<name>] of the
    entries of the input directory whose name ends in [.pdf] in any mix of
    upper and lower case: files and directories alike. *)
Theorem getAllPDFFiles_spec (fs : filesys) :
  let r := Batch.getAllPDFFiles fs in
  r.2 = fs ∧
  match r.1 with
  | Ok pdfFiles =>
      nodes fs !! config.inputDir = Some Dir ∧
      NoDup pdfFiles ∧
      ∀ p, p ∈ pdfFiles ↔
           ∃ name, p = path_join config.inputDir name ∧
                   is_Some (nodes fs !! path_join config.inputDir name) ∧
                   endsWith (toLowerCase name) ".pdf" = true
  | Throw _ => nodes fs !! config.inputDir ≠ Some Dir
  end.
Proof.
  cbn zeta. unfold Batch.getAllPDFFiles, fs_try, fs_bind, fs_read, fs_readdir, Batch.throw.
  destruct (nodes fs !! config.inputDir) as [[d|]|] eqn:Hin; cbn; try done.
  split; [done|]. split; [done|]. split.
  - apply NoDup_fmap_2; [|apply NoDup_filter, NoDup_children].
    intros a b Hab. by apply path_join_inj in Hab.
  - intros p. rewrite list_elem_of_fmap. split.
    + intros (name & -> & Hname). apply list_elem_of_filter in Hname as [Hpdf Hname].
      apply elem_of_children in Hname. by exists name.
    + intros (name & -> & Hname & Hpdf). exists name. split; [done|].
      apply list_elem_of_filter. split; [done|]. by apply elem_of_children.
Qed.






(** ** The stored upload *)











(** ** Maintenance while a job waits *)

Lemma cleanupDirectories_empties (fs : filesys) :
  nodes fs !! config.inputDir = Some Dir →
  (∀ f, f ∈ children fs config.inputDir →
        ∃ fs1, fs_unlink fs (path_join config.inputDir f) = Ok fs1) →
  children (cleanupDirectories fs).2 config.inputDir = [].
Proof.
  intros Hin Hall. unfold cleanupDirectories, fs_try, fs_bind, fs_read, fs_readdir.
  rewrite Hin. cbn.
  pose proof (unlink_each_spec config.inputDir (children fs config.inputDir) fs) as Hspec.
  assert ((unlink_each config.inputDir (children fs config.inputDir) fs).1 = Ok tt) as Hr.
  { apply unlink_each_Ok; [apply NoDup_children|].
    intros f Hf. destruct (Hall f Hf) as [fs1 Hu]. unfold fs_unlink in Hu.
    destruct (nodes fs !! path_join config.inputDir f) as [[data|]|]; try discriminate.
    case_decide; [discriminate|]. eauto. }
  destruct (unlink_each config.inputDir (children fs config.inputDir) fs) as [r fs'].
  cbn in Hr. subst r. cbn. destruct Hspec as (_ & Hkeep & Hgone).
  apply children_nil. intros n [x Hx].
  assert (n ∈ children fs config.inputDir) as Hn.
  { apply elem_of_children. destruct (Hkeep (config.inputDir ++ [n])) as [Heq|[Hnone _]].
    - exists x. congruence.
    - congruence. }
  specialize (Hgone eq_refl n Hn). unfold path_join in Hgone. congruence.
Qed.

(** X20. The maintenance endpoint does not look at the tracker: when it
    empties the input directory while the run of a job is about to check its
    uploaded file there, that run throws at the check and the record is
    failed with [PDF file not found at path: ...]. *)
Theorem cleanup_fails_waiting_job (s : State) (i : Z) (k : Task.t) (e : Env)
    (name : string) :
  reachable s →
  tasks s !! i = Some k →
  Task.pc k = AwaitAccess →
  Task.pdfPath k = path_join config.inputDir name →
  nodes (fs s) !! config.inputDir = Some Dir →
  (∀ f, f ∈ children (fs s) config.inputDir →
        ∃ fs1, fs_unlink (fs s) (path_join config.inputDir f) = Ok fs1) →
  let s1 := server_step LCleanup s in
  ∃ job, conversionJobs (server_step (LAdvance i e) s1) !! i = Some job ∧
         Job.status job = failed ∧
         Job.error job = Some (not_found_message (Task.pdfPath k)).
Proof.
  intros Hs Hk Hpc Hpath Hin Hall. cbn zeta.
  apply reachable_inv in Hs as [Htasks _].
  destruct (Htasks i k Hk) as [Hid (job0 & Hjob0 & _)].
  pose proof (cleanupDirectories_empties (fs s) Hin Hall) as Hempty.
  cbn [server_step]. unfold maintenance_cleanup.
  destruct (cleanupDirectories (fs s)) as [r fs1]. cbn in Hempty.
  assert (nodes fs1 !! Task.pdfPath k = None) as Hnone.
  { rewrite Hpath. unfold path_join.
    destruct (nodes fs1 !! (config.inputDir ++ [name])) as [x|] eqn:Hx; [|done].
    assert (name ∈ children fs1 config.inputDir) as Hn by (apply elem_of_children; eauto).
    rewrite Hempty in Hn. by apply elem_of_nil in Hn. }
  assert (∀ s' : State, conversionJobs s' = conversionJobs s → fs s' = fs1 →
            tasks s' = tasks s →
            ∃ job, conversionJobs (advance i e s') !! i = Some job ∧
                   Job.status job = failed ∧
                   Job.error job = Some (not_found_message (Task.pdfPath k))) as Hadv.
  { intros s' Hj Hf Ht. unfold advance. rewrite Ht, Hk, Hj, Hf.
    destruct (step_source_missing e
                {| m_jobs := conversionJobs s; m_fs := fs1; m_task := k; m_trace := [] |}
                job0) as (_ & _ & job' & Hjob' & Hfailed & Herror); cbn; try done.
    { by rewrite Hid. }
    cbn in Hjob'. rewrite Hid in Hjob'. by exists job'. }
  destruct r; apply Hadv; reflexivity.
Qed.

(** ** The properties at concrete runs *)

Lemma reachable_finished : reachable finished.
Proof. apply reachable_run, reachable_uploaded. Qed.

Lemma reachable_failed_early : reachable failed_early.
Proof. apply reachable_run, reachable_uploaded. Qed.

(** X1 at the record of job 1 and the first step of its run. *)
Lemma record_identity_witness :
  reachable uploaded ∧
  conversionJobs uploaded !! 1%Z = Some job_42_created ∧
  Job.id job_42_created = 1%Z ∧
  ∃ job', conversionJobs (server_step (LAdvance 1 env_page1_fails) uploaded) !! 1%Z =
            Some job' ∧
          Job.id job' = Job.id job_42_created ∧
          Job.directoryId job' = Job.directoryId job_42_created ∧
          Job.pdfPath job' = Job.pdfPath job_42_created ∧
          Job.startTime job' = Job.startTime job_42_created.
Proof.
  split; [exact reachable_uploaded|].
  split; [vm_compute; reflexivity|].
  apply (record_identity uploaded (LAdvance 1 env_page1_fails) 1 job_42_created).
  - exact reachable_uploaded.
  - vm_compute. reflexivity.
Defined.

(** X2 at the finished job 1. *)
Lemma outcome_fields_witness :
  reachable finished ∧
  conversionJobs finished !! 1%Z = Some job_42_finished ∧
  (is_Some (Job.endTime job_42_finished) ↔ terminal (Job.status job_42_finished) = true) ∧
  (is_Some (Job.error job_42_finished) ↔ Job.status job_42_finished = failed) ∧
  (is_Some (Job.compressionRatio job_42_finished) ↔
     Job.status job_42_finished = completed) ∧
  Job.errors job_42_finished ≠ Some [].
Proof.
  split; [exact reachable_finished|].
  split; [vm_compute; reflexivity|].
  apply (outcome_fields finished 1 job_42_finished).
  - exact reachable_finished.
  - vm_compute. reflexivity.
Defined.

(** X3 at the run that met a document pdf.js cannot open. *)
Lemma error_is_thrown_message_witness :
  reachable failed_early ∧
  conversionJobs failed_early !! 1%Z = Some job_42_failed ∧
  Job.error job_42_failed = Some "Invalid PDF structure" ∧
  Job.status job_42_failed = failed.
Proof.
  split; [exact reachable_failed_early|].
  split; [vm_compute; reflexivity|].
  apply (error_is_thrown_message failed_early 1
           (Task.mk ["pdfs"; "42.pdf"] (IdStr "42") 1
                    (Settled (Throw "Invalid PDF structure")) 0 0 0)
           job_42_failed "Invalid PDF structure").
  - exact reachable_failed_early.
  - vm_compute. reflexivity.
  - vm_compute. reflexivity.
  - reflexivity.
Defined.

(** X4 at the finished job 1. *)
Lemma progress_follows_pages_witness :
  reachable finished ∧
  conversionJobs finished !! 1%Z = Some job_42_finished ∧
  Job.progress job_42_finished = Percent 100.
Proof.
  split; [exact reachable_finished|].
  split; [vm_compute; reflexivity|].
  apply (progress_follows_pages finished 1 job_42_finished).
  - exact reachable_finished.
  - vm_compute. reflexivity.
Defined.

(** X5 at the finished job 1: two pages, one written and one error. *)
Lemma pages_accounted_witness :
  reachable finished ∧
  conversionJobs finished !! 1%Z = Some job_42_finished ∧
  Job.status job_42_finished = completed ∧
  Job.totalPages job_42_finished ≤
    Job.processedPages job_42_finished + error_count job_42_finished ∧
  error_count job_42_finished ≤ Job.totalPages job_42_finished.
Proof.
  split; [exact reachable_finished|].
  split; [vm_compute; reflexivity|].
  split; [reflexivity|].
  apply (pages_accounted finished 1 job_42_finished).
  - exact reachable_finished.
  - vm_compute. reflexivity.
  - reflexivity.
Defined.

(** X6 at the server with its one finished job. *)
Lemma tracker_ids_dense_witness :
  reachable finished ∧
  (∀ i, is_Some (conversionJobs finished !! i) ↔ (1 ≤ i ≤ jobCounter finished)%Z) ∧
  h_activeJobs (health 0 finished).1.2 = Z.to_nat (jobCounter finished) ∧
  (health 0 finished).2 = finished.
Proof.
  split; [exact reachable_finished|].
  apply (tracker_ids_dense finished 0). exact reachable_finished.
Defined.

(** X7 at an upload without a file. *)
Lemma upload_rejected_creates_nothing_witness :
  code (upload upload_nothing 1700000000000%N 1700000000001%N (initial disk_plain)).1 ≠ 200 ∧
  conversionJobs (upload upload_nothing 1700000000000%N 1700000000001%N
                    (initial disk_plain)).2 = conversionJobs (initial disk_plain) ∧
  jobCounter (upload upload_nothing 1700000000000%N 1700000000001%N
                (initial disk_plain)).2 = jobCounter (initial disk_plain).
Proof.
  assert (code (upload upload_nothing 1700000000000%N 1700000000001%N
                  (initial disk_plain)).1 ≠ 200) as Hcode
    by (vm_compute; discriminate).
  split; [exact Hcode|].
  destruct (upload_rejected_creates_nothing upload_nothing 1700000000000%N 1700000000001%N
              (initial disk_plain)) as [_ Hsame].
  destruct (Hsame Hcode) as (Hjobs & Hcounter & _).
  split; [exact Hjobs|exact Hcounter].
Defined.

(** X8 at the first upload. *)
Lemma upload_then_poll_witness :
  reachable (initial disk_plain) ∧
  code (upload upload_42 1700000000000%N 1700000000001%N (initial disk_plain)).1 = 200 ∧
  ∃ jobId pdfPath,
    file_path upload_42 = Some pdfPath ∧
    jobId = 1%Z ∧
    code (get_job (Some jobId) (initial disk_plain)).1 = 404 ∧
    code (get_job (Some jobId)
            (upload upload_42 1700000000000%N 1700000000001%N (initial disk_plain)).2).1 =
      200.
Proof.
  split; [exact (reachable_initial disk_plain)|].
  split; [vm_compute; reflexivity|].
  destruct (upload_then_poll upload_42 1700000000000%N 1700000000001%N (initial disk_plain)
              (reachable_initial disk_plain))
    as (jobId & pdfPath & Hfile & _ & Hid & Hbefore & Hafter & _).
  { vm_compute. reflexivity. }
  exists jobId, pdfPath. split; [exact Hfile|]. split; [exact Hid|].
  split; [exact Hbefore|exact Hafter].
Defined.

(** X10 at the run of job 1. *)
Lemma run_settles_witness :
  fresh run_42 ∧
  ∃ n job, is_settled (Task.pc (m_task (run env_page1_fails n run_42))) = true ∧
           m_jobs (run env_page1_fails n run_42) !! Task.jobId (m_task run_42) = Some job ∧
           terminal (Job.status job) = true.
Proof.
  split; [exact fresh_run_42|].
  exact (run_settles env_page1_fails run_42 fresh_run_42).
Defined.

(** X11 at the complete run of job 1: the image of the earlier conversion
    is gone and page 2 is the only entry. *)
Lemma output_directory_at_completion_witness :
  fresh run_42 ∧
  fs_wf (m_fs run_42) ∧
  Task.pc (m_task (run env_page1_fails 14 run_42)) = Settled (Ok ["images"; "42"]) ∧
  ∃ job, m_jobs (run env_page1_fails 14 run_42) !! Task.jobId (m_task run_42) = Some job ∧
         length (children (m_fs (run env_page1_fails 14 run_42)) ["images"; "42"]) =
           Job.processedPages job ∧
         Forall (λ c, ∃ j, 1 ≤ j ∧ j ≤ Job.totalPages job ∧ c = page_file j)
                (children (m_fs (run env_page1_fails 14 run_42)) ["images"; "42"]).
Proof.
  split; [exact fresh_run_42|].
  split; [exact fs_wf_disk_plain|].
  split; [vm_compute; reflexivity|].
  apply (output_directory_at_completion env_page1_fails 14 run_42 ["images"; "42"]).
  - exact fresh_run_42.
  - exact fs_wf_disk_plain.
  - vm_compute. reflexivity.
Defined.


(** X13 at the run of job 1, once it has started. *)
Lemma clean_steps_agree_witness :
  Task.pc (m_task (run env_page1_fails 1 run_42)) = AwaitCleanAccess ∧
  ∃ n, n ≤ 2 + length (children (m_fs (run env_page1_fails 1 run_42))
                                (pdfOutputDir (IdStr "42"))) ∧
       m_fs (run env_page1_fails n (run env_page1_fails 1 run_42)) =
         (cleanDirectoryImages (IdStr "42") (m_fs (run env_page1_fails 1 run_42))).2.
Proof.
  split; [reflexivity|].
  destruct (clean_steps_agree env_page1_fails (run env_page1_fails 1 run_42) eq_refl)
    as (n & Hn & Hfs & _).
  exists n. split; [exact Hn|exact Hfs].
Defined.

Lemma reachable_waiting : reachable waiting.
Proof. apply reachable_run, reachable_uploaded. Qed.

(** X20 at job 1, whose upload the cleanup removes before the run has
    checked it. *)
Lemma cleanup_fails_waiting_job_witness :
  reachable waiting ∧
  nodes (fs waiting) !! config.inputDir = Some Dir ∧
  ∃ job, conversionJobs (server_step (LAdvance 1 env_page1_fails)
                           (server_step LCleanup waiting)) !! 1%Z = Some job ∧
         Job.status job = failed ∧
         Job.error job = Some (not_found_message ["pdfs"; "42.pdf"]).
Proof.
  split; [exact reachable_waiting|].
  split; [vm_compute; reflexivity|].
  apply (cleanup_fails_waiting_job waiting 1
           (Task.mk ["pdfs"; "42.pdf"] (IdStr "42") 1 AwaitAccess 0 0 0)
           env_page1_fails "42.pdf").
  - exact reachable_waiting.
  - vm_compute. reflexivity.
  - reflexivity.
  - reflexivity.
  - vm_compute. reflexivity.
  - intros f Hf.
    assert (children (fs waiting) config.inputDir = ["42.pdf"]) as Hc
      by (vm_compute; reflexivity).
    rewrite Hc in Hf. apply list_elem_of_singleton in Hf as ->.
    eexists. vm_compute. reflexivity.
Defined.


(** X14 at a disk that has both directories. *)
Lemma ensureDirectoriesExist_spec_witness :
  (ensureDirectoriesExist disk_plain).1 = Ok tt ∧
  nodes (ensureDirectoriesExist disk_plain).2 !! config.inputDir = Some Dir ∧
  nodes (ensureDirectoriesExist disk_plain).2 !! config.outputDir = Some Dir.
Proof.
  assert ((ensureDirectoriesExist disk_plain).1 = Ok tt) as Hok by (vm_compute; reflexivity).
  split; [exact Hok|].
  destruct (ensureDirectoriesExist_spec disk_plain) as (_ & Hdirs & _).
  destruct (Hdirs Hok) as (Hin & Hout & _). split; [exact Hin|exact Hout].
Defined.

(** X15 at a disk with an upload that cannot be removed: the cleanup
    fails and the server listens. *)
Lemma startup_spec_witness :
  (startup disk_locked).1 = Listening ∧
  nodes (startup disk_locked).2 !! config.inputDir = Some Dir ∧
  nodes (startup disk_locked).2 !! config.outputDir = Some Dir.
Proof.
  destruct (startup_spec disk_locked) as (Hlisten & _ & Hdirs & _).
  assert ((startup disk_locked).1 = Listening) as Hl
    by (apply Hlisten; vm_compute; reflexivity).
  split; [exact Hl|exact (Hdirs Hl)].
Defined.



